(** * Blackjack: the console game (blackjack.py) and the web session (app.py)

    A shallow embedding of the two Python programs and the proofs of the
    properties their specification states.  Cards are pairs of strings, as in
    the source; hands and decks are lists whose last element is the top of the
    deck (Python's [list.pop()] and [list.append]); integers are [Z];
    exceptions are values of [exn] carried by [result]. *)

From Equations Require Import Equations.
From stdpp Require Import base tactics option list strings.
From Stdlib Require Import ZArith DecimalString Lia.
From Stdlib Require Import Ascii.

Local Open Scope string_scope.
Local Open Scope list_scope.
Local Open Scope Z_scope.

(** ** Exceptions and results *)

(** The Python exceptions the two programs can raise. *)
Inductive exn : Set :=
  | IndexError       (* list.pop() on an empty list, list index out of range *)
  | ValueError       (* int() on a string that is not a number *)
  | TypeError        (* iterating or indexing None *)
  | AttributeError   (* None.append, None.pop *)
  | EOFError.        (* input() at the end of the input *)

Inductive result (A : Type) : Type :=
  | Ok (a : A)
  | Err (e : exn).
Arguments Ok {A} a.
Arguments Err {A} e.

(** [result] is a monad; [x ← r; k] stops at the first exception. *)
#[global] Instance result_ret : MRet result := fun A a => Ok a.
#[global] Instance result_bind : MBind result := fun A B k r =>
  match r with
  | Ok a => k a
  | Err e => Err e
  end.

#[global] Instance exn_eq_dec : EqDecision exn.
Proof. solve_decision. Defined.

(** ** State with exceptions

    A computation that mutates a store of type [S] and may raise: the store is
    returned in both cases, since what was written before an exception stays
    written. *)
Definition M (S A : Type) : Type := S -> S * result A.

#[global] Instance M_ret {S} : MRet (M S) := fun A a s => (s, Ok a).
#[global] Instance M_bind {S} : MBind (M S) := fun A B k m s =>
  match m s with
  | (s', Ok a) => k a s'
  | (s', Err e) => (s', Err e)
  end.

Definition raise {S A} (e : exn) : M S A := fun s => (s, Err e).
Definition lift {S A} (r : result A) : M S A := fun s => (s, r).
Definition gets {S A} (f : S -> A) : M S A := fun s => (s, Ok (f s)).
Definition modify {S} (f : S -> S) : M S unit := fun s => (f s, Ok tt).

(** ** Cards *)

(** A card is the tuple [(rank, suit)]. *)
Definition card : Type := string * string.

Definition RANKS : list string :=
  ["2"; "3"; "4"; "5"; "6"; "7"; "8"; "9"; "10"; "J"; "Q"; "K"; "A"].
Definition SUITS : list string := ["♠"; "♥"; "♦"; "♣"].

(** ** Text

    A Python [str] is a sequence of code points.  The strings of this file
    hold its UTF-8 encoding, as the literals for the suits do: [code_points]
    reads a string as the [str] it encodes and [text] writes one back.  A byte
    that starts no well-formed sequence is read as the code point of its own
    value; no [str] is encoded by a string with such a byte. *)
Definition continuation (a : ascii) : option N :=
  let n := N_of_ascii a in
  if (0x80 <=? n)%N && (n <? 0xC0)%N then Some (n - 0x80)%N else None.

Fixpoint code_points (s : string) : list N :=
  match s with
  | EmptyString => []
  | String a r1 =>
      let n := N_of_ascii a in
      let lone := n :: code_points r1 in
      if (n <? 0xC0)%N then lone
      else
        match r1 with
        | EmptyString => lone
        | String b r2 =>
            match continuation b with
            | None => lone
            | Some x1 =>
                if (n <? 0xE0)%N then ((n - 0xC0) * 64 + x1)%N :: code_points r2
                else
                  match r2 with
                  | EmptyString => lone
                  | String c r3 =>
                      match continuation c with
                      | None => lone
                      | Some x2 =>
                          if (n <? 0xF0)%N
                          then ((n - 0xE0) * 4096 + x1 * 64 + x2)%N :: code_points r3
                          else
                            match r3 with
                            | EmptyString => lone
                            | String d r4 =>
                                match continuation d with
                                | None => lone
                                | Some x3 =>
                                    ((n - 0xF0) * 262144 + x1 * 4096 + x2 * 64 + x3)%N
                                    :: code_points r4
                                end
                            end
                      end
                  end
            end
        end
  end.

Definition bytes (ns : list N) : string :=
  foldr (fun n s => String (ascii_of_N n) s) EmptyString ns.

Definition utf8 (c : N) : string :=
  (if c <? 0x80 then bytes [c]
   else if c <? 0x800 then bytes [0xC0 + c / 64; 0x80 + c mod 64]
   else if c <? 0x10000
        then bytes [0xE0 + c / 4096; 0x80 + (c / 64) mod 64; 0x80 + c mod 64]
        else bytes [0xF0 + c / 262144; 0x80 + (c / 4096) mod 64;
                    0x80 + (c / 64) mod 64; 0x80 + c mod 64])%N.

Definition text (cs : list N) : string :=
  foldr (fun c s => utf8 c +:+ s) EmptyString cs.

(** ** Python's string functions *)

(** [str.isspace] of one code point, the blanks that [str.strip] removes:
    the ASCII blanks (tab to carriage return, the four separators 0x1C to
    0x1F, the space) and the Unicode ones (next line, no-break space, ogham
    space, en quad to hair space, line and paragraph separator, narrow
    no-break space, medium mathematical space, ideographic space). *)
Definition is_space (c : N) : bool :=
  ((9 <=? c) && (c <=? 13) || (0x1C <=? c) && (c <=? 0x20) ||
   (c =? 0x85) || (c =? 0xA0) || (c =? 0x1680) ||
   (0x2000 <=? c) && (c <=? 0x200A) || (c =? 0x2028) || (c =? 0x2029) ||
   (c =? 0x202F) || (c =? 0x205F) || (c =? 0x3000))%N.

Fixpoint lstrip_by (blank : N → bool) (cs : list N) : list N :=
  match cs with
  | c :: cs' => if blank c then lstrip_by blank cs' else cs
  | [] => []
  end.

Definition strip_by (blank : N → bool) (cs : list N) : list N :=
  reverse (lstrip_by blank (reverse (lstrip_by blank cs))).

Definition strip (s : string) : string :=
  text (strip_by is_space (code_points s)).

(** [str.lower] of one code point.  The upper-case letters of ASCII, and the
    two code points outside ASCII whose lower-case form has an ASCII letter
    in it: the Kelvin sign (k) and the dotted capital I (i and a combining
    dot).  Every other code point outside ASCII is left as it is: Python
    gives it a lower-case form outside ASCII, so [lower s] is what Python
    gives whenever either of the two is ASCII text, which is what the
    comparisons with 'h', 'hit', 's', 'stand', 'y' and 'yes' look at. *)
Definition lower_point (c : N) : list N :=
  (if (0x41 <=? c) && (c <=? 0x5A) then [c + 32]
   else if c =? 0x212A then [0x6B]
   else if c =? 0x130 then [0x69; 0x307]
   else [c])%N.

Definition lower (s : string) : string :=
  text (c ← code_points s; lower_point c).

(** The code points that are the digit zero of a script (Unicode 14, the
    version of Python 3.11); the nine that follow each are its digits one to
    nine. *)
Definition decimal_zeros : list N :=
  [0x30; 0x660; 0x6F0; 0x7C0; 0x966; 0x9E6; 0xA66; 0xAE6; 0xB66; 0xBE6;
   0xC66; 0xCE6; 0xD66; 0xDE6; 0xE50; 0xED0; 0xF20; 0x1040; 0x1090; 0x17E0;
   0x1810; 0x1946; 0x19D0; 0x1A80; 0x1A90; 0x1B50; 0x1BB0; 0x1C40; 0x1C50;
   0xA620; 0xA8D0; 0xA900; 0xA9D0; 0xA9F0; 0xAA50; 0xABF0; 0xFF10; 0x104A0;
   0x10D30; 0x11066; 0x110F0; 0x11136; 0x111D0; 0x112F0; 0x11450; 0x114D0;
   0x11650; 0x116C0; 0x11730; 0x118E0; 0x11950; 0x11C50; 0x11D50; 0x11DA0;
   0x16A60; 0x16AC0; 0x16B50; 0x1D7CE; 0x1D7D8; 0x1D7E2; 0x1D7EC; 0x1D7F6;
   0x1E140; 0x1E2F0; 0x1E950; 0x1FBF0]%N.

(** [unicodedata.decimal] of one code point. *)
Definition decimal (c : N) : option Z :=
  match list_find (fun z => (z <=? c)%N && (c <? z + 10)%N = true) decimal_zeros with
  | Some (_, z) => Some (Z.of_N (c - z))
  | None => None
  end.

(** The blanks that [int] skips at both ends: of the ASCII ones only tab to
    carriage return and the space (not the separators 0x1C to 0x1F), and the
    Unicode ones. *)
Definition int_space (c : N) : bool :=
  ((9 <=? c) && (c <=? 13) || (c =? 0x20) || (0x7F <? c) && is_space c)%N.

(** [sys.int_max_str_digits]: a literal of more digits is refused. *)
Definition int_max_str_digits : nat := 4300.

(** The digits of a decimal literal, with single underscores allowed between
    two digits; [after_digit] tells whether the previous character was a
    digit (it is not at the start and after an underscore), [count] is the
    number of digits read. *)
Fixpoint digits_value (acc : Z) (count : nat) (after_digit : bool) (cs : list N)
  : option (Z * nat) :=
  match cs with
  | [] => if after_digit then Some (acc, count) else None
  | c :: cs' =>
      match decimal c with
      | Some d => digits_value (10 * acc + d) (S count) true cs'
      | None =>
          if (c =? 0x5F)%N && after_digit
          then digits_value acc count false cs'
          else None
      end
  end.

(** [int(s)] in base ten: blanks around, an optional sign, then the digits
    (of any script); anything else, and a literal of more than
    [int_max_str_digits] digits, raises ValueError. *)
Definition py_int (s : string) : result Z :=
  let parsed :=
    match strip_by int_space (code_points s) with
    | 0x2B%N :: cs => digits_value 0 0 false cs
    | 0x2D%N :: cs => prod_map Z.opp id <$> digits_value 0 0 false cs
    | cs => digits_value 0 0 false cs
    end in
  match parsed with
  | Some (z, count) =>
      if bool_decide (count <= int_max_str_digits)%nat then Ok z else Err ValueError
  | None => Err ValueError
  end.

(** ** Scoring (the same text in blackjack.py and app.py) *)

Definition card_value (rank : string) : result Z :=
  if bool_decide (rank ∈ ["J"; "Q"; "K"]) then Ok 10
  else if bool_decide (rank = "A") then Ok 11
  else py_int rank.

(** The [for] loop of [hand_value]: [value] and [aces] are the two
    accumulators, updated card by card. *)
Fixpoint tally (hand : list card) (value : Z) (aces : nat) : result (Z * nat) :=
  match hand with
  | [] => Ok (value, aces)
  | (rank, _) :: rest =>
      v ← card_value rank;
      tally rest (value + v)
            (if bool_decide (rank = "A") then S aces else aces)
  end.

(** The [while value > 21 and aces > 0] loop; it runs at most [aces] times. *)
Fixpoint soften (aces : nat) (value : Z) : Z :=
  match aces with
  | O => value
  | S aces' => if 21 <? value then soften aces' (value - 10) else value
  end.

Definition hand_value (hand : list card) : result Z :=
  '(value, aces) ← tally hand 0 0;
  Ok (soften aces value).

(** ** Presentation (the same text in both files) *)

Definition format_card (c : card) : string :=
  let '(rank, suit) := c in rank +:+ suit.

Definition format_hand (hand : list card) : string :=
  String.concat " " (format_card <$> hand).

(** [str(n)] for an integer, as an f-string renders it. *)
Definition str_of_int (n : Z) : string := NilZero.string_of_int (Z.to_int n).

(** ** The deck *)

(** The state of Python's module-wide random source, seen through the only
    operation [random.shuffle] uses: [randbelow n] returns a number below [n]
    and advances the source.  A source is a stream of numbers; every sequence
    of answers that [randbelow] can give is the residues of some stream. *)
Definition rng : Type := nat -> nat.

Definition randbelow (g : rng) (n : nat) : nat * rng :=
  (Nat.modulo (g O) n, fun t => g (S t)).

(** [x[i], x[j] = x[j], x[i]].  Both indexes are inside the list at every
    call made by [random_shuffle] (lemma [shuffle_from_in_range]); Python
    raises IndexError outside, where this returns the list as it is. *)
Definition swap {A} (x : list A) (i j : nat) : list A :=
  match x !! i, x !! j with
  | Some xi, Some xj => <[j := xi]> (<[i := xj]> x)
  | _, _ => x
  end.

(** [for i in reversed(range(1, len(x))): j = randbelow(i + 1); swap], the
    body of [random.shuffle]; the argument counts [i] down to 1. *)
Fixpoint shuffle_from {A} (i : nat) (x : list A) (g : rng) : list A * rng :=
  match i with
  | O => (x, g)
  | S i' =>
      let '(j, g') := randbelow g (S (S i')) in
      shuffle_from i' (swap x (S i') j) g'
  end.

Definition random_shuffle {A} (x : list A) (g : rng) : list A * rng :=
  shuffle_from (length x - 1) x g.

(** [[(rank, suit) for suit in SUITS for rank in RANKS]], then the optional
    shuffle.  The random source is threaded through. *)
Definition build_deck (shuffle : bool) (g : rng) : list card * rng :=
  let deck := suit ← SUITS; rank ← RANKS; [(rank, suit)] in
  if shuffle then random_shuffle deck g else (deck, g).

(** [deck.pop()]: the last element is removed and returned; IndexError on an
    empty list. *)
Definition pop {A} (l : list A) : result (A * list A) :=
  match reverse l with
  | [] => Err IndexError
  | x :: r => Ok (x, reverse r)
  end.

(** [deck.pop()] on the deck that a function was given: the deck is mutated
    in place, so it is the store here, left as it is when the pop raises. *)
Definition pop_card : M (list card) card := fun deck =>
  match pop deck with
  | Ok (c, deck') => (deck', Ok c)
  | Err e => (deck, Err e)
  end.

(** [deal_initial_hands]: four pops, left to right.  The cards popped before
    a pop that raises are off the deck (and lost with the list being built). *)
Definition deal_initial_hands : M (list card) (list card * list card) :=
  p1 ← pop_card;
  p2 ← pop_card;
  d1 ← pop_card;
  d2 ← pop_card;
  mret ([p1; p2], [d1; d2]).

(** ** The winner (the same text in both files) *)

Definition determine_winner (player dealer : list card) : result string :=
  p_val ← hand_value player;
  d_val ← hand_value dealer;
  if 21 <? p_val then Ok "dealer"
  else if 21 <? d_val then Ok "player"
  else if d_val <? p_val then Ok "player"
  else Ok "dealer".

(** A value together with the proof that it is what was computed, so that a
    branch on [pop deck] remembers where the shorter deck comes from. *)
Definition inspect {A} (x : A) : {y : A | x = y} := exist _ x eq_refl.

Module Web.

(** *** app.py: [dealer_turn]

    [while hand_value(hand) <= 16: hand.append(deck.pop())].  Both lists are
    mutated in place, so the two lists as they are when the function returns
    or raises are part of the outcome.  Each turn of the loop shortens the
    deck, which is the measure of the recursion. *)
Equations? dealer_turn (deck hand : list card)
  : (list card * list card) * result unit by wf (length deck) lt :=
  dealer_turn deck hand with hand_value hand => {
    | Err e := ((deck, hand), Err e);
    | Ok v with v <=? 16 => {
        | false := ((deck, hand), Ok tt);
        | true with inspect (pop deck) => {
            | exist _ (Err e) _ := ((deck, hand), Err e);
            | exist _ (Ok (drawn, deck')) Hpop := dealer_turn deck' (hand ++ [drawn])
          }
      }
  }.
Proof.
  unfold pop in Hpop. destruct (reverse deck) as [|x r] eqn:E; [done|].
  injection Hpop as <- <-.
  rewrite <- (reverse_involutive deck), E, !length_reverse. simpl. lia.
Qed.

(** *** The session

    Flask's [session] holds the keys 'deck', 'player', 'dealer' and 'state'.
    [start] stores the three lists together, [reset] clears them together and
    [game] stores back what it read, so the three lists are present together
    or absent together: [cards] is [None] when [session.get] returns None for
    them.  [state] is [None] when the key is absent.  The local variables
    [deck], [player] and [dealer] of [game] are the very lists of the session
    (nothing copies them), so what is appended to or popped from them is
    appended to or popped from the session's. *)
Record Table : Type := mkTable {
  deck : list card;
  player : list card;
  dealer : list card
}.

Record Session : Type := mkSession {
  cards : option Table;
  state : option string
}.

(** What [game] looks at in the request: [request.method] and
    [request.form.get('action')]. *)
Record Request : Type := mkRequest {
  method : string;
  action : option string
}.

(** The keyword arguments [game] passes to [render_template]. *)
Record Page : Type := mkPage {
  player_hand : string;
  player_value : Z;
  dealer_hand : string;
  dealer_value : Z;
  page_state : string;
  message : string
}.

Definition set_state (st : string) : M Session unit :=
  modify (fun s => mkSession (cards s) (Some st)).

(** [player.append(deck.pop())]. *)
Definition hit : M Session unit := fun s =>
  match cards s with
  | None => (s, Err AttributeError)
  | Some t =>
      match pop (deck t) with
      | Err e => (s, Err e)
      | Ok (c, deck') =>
          (mkSession (Some (mkTable deck' (player t ++ [c]) (dealer t))) (state s),
           Ok tt)
      end
  end.

(** A function of the lists applied to what the session holds: iterating or
    indexing None raises TypeError. *)
Definition on_table {A} (f : Table -> result A) : M Session A := fun s =>
  match cards s with
  | None => (s, Err TypeError)
  | Some t => (s, f t)
  end.

(** [dealer = dealer_turn(deck, dealer)]. *)
Definition run_dealer : M Session unit := fun s =>
  match cards s with
  | None => (s, Err TypeError)
  | Some t =>
      let '((deck', dealer'), r) := dealer_turn (deck t) (dealer t) in
      (mkSession (Some (mkTable deck' (player t) dealer')) (state s), r)
  end.

(** [dealer[0]]. *)
Definition first_card (hand : list card) : result card :=
  match hand with
  | [] => Err IndexError
  | c :: _ => Ok c
  end.

(** The arguments of [render_template], evaluated in the order written. *)
Definition render (st msg : string) (t : Table) : result Page :=
  let ph := format_hand (player t) in
  pv ← hand_value (player t);
  dh ← (if bool_decide (st = "playing")
        then c ← first_card (dealer t); Ok (format_hand [c] +:+ " [hidden]")
        else Ok (format_hand (dealer t)));
  dv ← (if bool_decide (st = "playing")
        then c ← first_card (dealer t); hand_value [c]
        else hand_value (dealer t));
  Ok (mkPage ph pv dh dv st msg).

(** *** The route [/game]

    The handler in its three steps: the player's action (the block under
    [if request.method == 'POST' and state == 'playing']), the dealer's turn
    (the block under [if state == 'dealer']), and the four assignments to the
    session with the rendering.  The locals [state] and [message] are passed
    from step to step.  Of the assignments to the session only those to
    'state' change it: the lists stored are the lists it already holds. *)
Definition player_step (req : Request) (st : string) : M Session (string * string) :=
  if bool_decide (method req = "POST") && bool_decide (st = "playing") then
    if bool_decide (action req = Some "hit") then
      hit;;
      v ← on_table (fun t => hand_value (player t));
      if 21 <? v then mret ("done", "You busted! Dealer wins.")
      else mret (st, "")
    else if bool_decide (action req = Some "stand") then
      set_state "dealer";;
      mret ("dealer", "")
    else mret (st, "")
  else mret (st, "").

Definition dealer_step (st msg : string) : M Session (string * string) :=
  if bool_decide (st = "dealer") then
    run_dealer;;
    winner ← on_table (fun t => determine_winner (player t) (dealer t));
    set_state "done";;
    mret ("done",
          if bool_decide (winner = "player") then "You win!"
          else "Dealer wins! (Dealer wins ties)")
  else mret (st, msg).

Definition game (req : Request) : M Session Page :=
  st ← gets (fun s => default "playing" (state s));
  '(st, msg) ← player_step req st;
  '(st, msg) ← dealer_step st msg;
  set_state st;;
  on_table (render st msg).

(** *** The routes [/start] and [/reset] *)
Definition start (g : rng) : M Session rng :=
  let '(deck, g') := build_deck true g in
  let '(deck, dealt) := deal_initial_hands deck in
  '(player, dealer) ← lift dealt;
  modify (fun _ => mkSession (Some (mkTable deck player dealer)) (Some "playing"));;
  mret g'.

Definition reset : M Session unit :=
  modify (fun _ => mkSession None None).

End Web.

Module Console.

(** *** The terminal

    [stdin] holds the lines still to be read by [input], [stdout] what has
    been written: one entry per [print] call (its text, without the final line
    break) and one per prompt of [input]. *)
Record World : Type := mkWorld {
  stdin : list string;
  stdout : list string
}.

Definition print (text : string) : M World unit :=
  modify (fun w => mkWorld (stdin w) (stdout w ++ [text])).

(** A line break, for the texts that start with one. *)
Definition nl : string := String (ascii_of_nat 10) "".

(** The texts of the f-strings. *)
Definition your_hand_line (hand : list card) (v : Z) : string :=
  "Your hand: " +:+ format_hand hand +:+ " (value: " +:+ str_of_int v +:+ ")".
Definition dealers_hand_line (hand : list card) (v : Z) : string :=
  "Dealer's hand: " +:+ format_hand hand +:+ " (value: " +:+ str_of_int v +:+ ")".

(** *** blackjack.py: [player_turn]

    One turn of [while True] reads one line, so the loop is a recursion on
    the lines still to be read; [out] is what has been written so far.  The
    hand and the deck are mutated in place by the source and returned here. *)
Fixpoint player_loop (inp out : list string) (deck hand : list card)
  : World * result (list card * list card) :=
  match hand_value hand with
  | Err e => (mkWorld inp out, Err e)
  | Ok v =>
      let out := out ++ [nl +:+ your_hand_line hand v; "Hit or Stand? [H/S]: "] in
      match inp with
      | [] => (mkWorld [] out, Err EOFError)
      | line :: inp =>
          let choice := lower (strip line) in
          if bool_decide (choice ∈ ["h"; "hit"]) then
            match pop deck with
            | Err e => (mkWorld inp out, Err e)
            | Ok (c, deck) =>
                let hand := hand ++ [c] in
                match hand_value hand with
                | Err e => (mkWorld inp out, Err e)
                | Ok value =>
                    let out := out ++ ["You drew: " +:+ format_card c +:+
                                       ". Hand value is now " +:+
                                       str_of_int value +:+ "."] in
                    if 21 <? value
                    then (mkWorld inp (out ++ ["You busted!"]), Ok (deck, hand))
                    else player_loop inp out deck hand
                end
            end
          else if bool_decide (choice ∈ ["s"; "stand"]) then
            (mkWorld inp out, Ok (deck, hand))
          else
            player_loop inp (out ++ ["Please type 'H' to Hit or 'S' to Stand."])
                        deck hand
      end
  end.

Definition player_turn (deck hand : list card) : M World (list card * list card) :=
  fun w => player_loop (stdin w) (stdout w) deck hand.

(** *** blackjack.py: [dealer_turn]

    The loop of the web version with its two [print]s per card; [out] is what
    the loop has written so far. *)
Equations? dealer_loop (deck hand : list card) (out : list string)
  : list string * result (list card * list card) by wf (length deck) lt :=
  dealer_loop deck hand out with hand_value hand => {
    | Err e := (out, Err e);
    | Ok v with v <=? 16 => {
        | false := (out, Ok (deck, hand));
        | true with inspect (pop deck) => {
            | exist _ (Err e) _ := (out, Err e);
            | exist _ (Ok (drawn, deck')) Hpop :=
                match hand_value (hand ++ [drawn]) with
                | Err e =>
                    (out ++ ["Dealer hits and draws: " +:+ format_card drawn],
                     Err e)
                | Ok v' =>
                    dealer_loop deck' (hand ++ [drawn])
                      (out ++ ["Dealer hits and draws: " +:+ format_card drawn;
                               dealers_hand_line (hand ++ [drawn]) v'])
                end
          }
      }
  }.
Proof.
  unfold pop in Hpop. destruct (reverse deck) as [|x r] eqn:E; [done|].
  injection Hpop as <- <-.
  rewrite <- (reverse_involutive deck), E, !length_reverse. simpl. lia.
Qed.

(** [hand[1]] raises IndexError on a hand of fewer than two cards. *)
Definition dealer_turn (deck hand : list card) : M World (list card * list card) :=
  hole ← lift (match hand !! 1%nat with Some c => Ok c | None => Err IndexError end);
  print (nl +:+ "Dealer reveals hole card: " +:+ format_card hole);;
  v ← lift (hand_value hand);
  print (dealers_hand_line hand v);;
  '(deck, hand) ← (fun w =>
     let '(out, r) := dealer_loop deck hand (stdout w) in
     (mkWorld (stdin w) out, r));
  v ← lift (hand_value hand);
  print (if 21 <? v then "Dealer busts!" else "Dealer stands.");;
  mret (deck, hand).

(** *** blackjack.py: [play_round]

    The source returns None; the final values of its locals [deck], [player]
    and [dealer] are returned here so that statements can speak of them.
    [play_round_on] is the body after the deck is built. *)
Definition play_round_on (deck : list card)
  : M World (list card * list card * list card) :=
  let '(deck, dealt) := deal_initial_hands deck in
  '(player, dealer) ← lift dealt;
  print (nl +:+ "=== New Round ===");;
  shown ← lift (match dealer with c :: _ => Ok c | [] => Err IndexError end);
  print ("Dealer shows: " +:+ format_card shown +:+ " and [hidden]");;
  v ← lift (hand_value player);
  print (your_hand_line player v);;
  '(deck, player) ← player_turn deck player;
  v ← lift (hand_value player);
  if 21 <? v then
    print (nl +:+ "Dealer wins!");;
    dv ← lift (hand_value dealer);
    print ("Dealer hand was: " +:+ format_hand dealer +:+
           " (value: " +:+ str_of_int dv +:+ ")");;
    mret (deck, player, dealer)
  else
    '(deck, dealer) ← dealer_turn deck dealer;
    winner ← lift (determine_winner player dealer);
    print (nl +:+ "=== Results ===");;
    pv ← lift (hand_value player);
    print ("Your hand:   " +:+ format_hand player +:+
           " (value: " +:+ str_of_int pv +:+ ")");;
    dv ← lift (hand_value dealer);
    print ("Dealer hand: " +:+ format_hand dealer +:+
           " (value: " +:+ str_of_int dv +:+ ")");;
    print (if bool_decide (winner = "player") then "You win!"
           else if bool_decide (winner = "dealer")
                then "Dealer wins! (Dealer wins ties)"
                else "Push (tie).");;
    mret (deck, player, dealer).

Definition play_round (g : rng)
  : M World (rng * (list card * list card * list card)) :=
  let '(deck, g') := build_deck true g in
  r ← play_round_on deck;
  mret (g', r).

(** [input(prompt)]: the prompt is written, then one line is read; EOFError
    when no line is left. *)
Definition input (prompt : string) : M World string := fun w =>
  match stdin w with
  | [] => (mkWorld [] (stdout w ++ [prompt]), Err EOFError)
  | line :: rest => (mkWorld rest (stdout w ++ [prompt]), Ok line)
  end.

(** *** blackjack.py: [main]

    [while True: play_round(); again = input(...)]: every turn of the loop
    reads at least one line, so a loop bounded by the number of lines left
    plus one is never cut short (lemma [main_loop_enough]); [None] is the
    answer of a loop that was.  The random source goes from round to round. *)
Fixpoint main_loop (bound : nat) (g : rng) : M World (option rng) :=
  match bound with
  | O => mret None
  | S bound =>
      '(g, _) ← play_round g;
      again ← input (nl +:+ "Play again? [Y/N]: ");
      if bool_decide (lower (strip again) ∈ ["y"; "yes"])
      then main_loop bound g
      else print "Thanks for playing!";; mret (Some g)
  end.

Definition main (g : rng) : M World (option rng) :=
  print "Welcome to Blackjack! (Dealer wins ties)";;
  ((fun w => main_loop (S (length (stdin w))) g w) : M World (option rng)).

End Console.

(** * What the specification says, as definitions *)

(** The ways one card can be counted, in the words of the specification: an
    Ace as 11 or as 1, J/Q/K as 10, a number card at its face value.  A rank
    outside RANKS has no way to be counted. *)
Definition number_cards : list (string * Z) :=
  [("2", 2); ("3", 3); ("4", 4); ("5", 5); ("6", 6); ("7", 7); ("8", 8);
   ("9", 9); ("10", 10)].

Definition countings (rank : string) : list Z :=
  if bool_decide (rank = "A") then [11; 1]
  else if bool_decide (rank ∈ ["J"; "Q"; "K"]) then [10]
  else match list_find (fun p => p.1 = rank) number_cards with
       | Some (_, (_, n)) => [n]
       | None => []
       end.

(** The same with every Ace as 1. *)
Definition low_countings (rank : string) : list Z :=
  if bool_decide (rank = "A") then [1] else countings rank.

(** Every total of a hand: one counting chosen for each card. *)
Fixpoint totals_by (count : string → list Z) (hand : list card) : list Z :=
  match hand with
  | [] => [0]
  | (rank, _) :: rest => p ← count rank; t ← totals_by count rest; [p + t]
  end.

Definition totals : list card → list Z := totals_by countings.
Definition low_totals : list card → list Z := totals_by low_countings.

(** [v] is the best total of [hand]: the largest total that is at most 21,
    or, when every total is above 21, the smallest total, which is the total
    with every Ace as 1. *)
Definition best_total (hand : list card) (v : Z) : Prop :=
  v ∈ totals hand ∧
  ((v <= 21 ∧ ∀ t, t ∈ totals hand → t <= 21 → t <= v) ∨
   ((∀ t, t ∈ totals hand → 21 < t) ∧ v ∈ low_totals hand ∧
    ∀ t, t ∈ totals hand → v <= t)).

(** A hand of cards of the deck: every rank is one of RANKS. *)
Definition known_ranks (hand : list card) : Prop :=
  Forall (fun c : card => c.1 ∈ RANKS) hand.

(** How a dealer's turn can end: standing at 17 or more, the deck exhausted
    at 16 or less, or a card in the hand that has no value. *)
Definition dealer_end (deck' hand' : list card) (r : result unit) : Prop :=
  (r = Ok tt ∧ ∃ v, hand_value hand' = Ok v ∧ 17 <= v) ∨
  (r = Err IndexError ∧ deck' = [] ∧ ∃ v, hand_value hand' = Ok v ∧ v <= 16) ∨
  (r = Err ValueError ∧ hand_value hand' = Err ValueError).

(** What a function that returns the lists returns, read off the lists it
    leaves and whether it raised: the console's [dealer_turn] against the
    web's. *)
Definition returned {A} (x : A * result unit) : result A :=
  match x with
  | (st, Ok _) => Ok st
  | (_, Err e) => Err e
  end.

(** Every swap that [shuffle_from] makes has both indexes inside the list. *)
Fixpoint swaps_in_range {A} (i : nat) (x : list A) (g : rng) : Prop :=
  match i with
  | O => True
  | S i' =>
      let '(j, g') := randbelow g (S (S i')) in
      is_Some (x !! S i') ∧ is_Some (x !! j) ∧
      swaps_in_range i' (swap x (S i') j) g'
  end.

(** The 'state' key is absent or holds one of the three values the program
    ever writes to it. *)
Definition known_state (s : Web.Session) : Prop :=
  Web.state s ∈ [None; Some "playing"; Some "dealer"; Some "done"].

(** A session of a round dealt from the deck, where [dealt] is the dealer's
    first two cards: all cards are cards of the deck and the round is
    finished, or it is the player's turn, the dealer still holds [dealt], the
    player is not above 21 and at least 38 cards are in the deck and the
    player's hand together (50 after the deal; a hit moves one card from the
    one to the other).  A finished round where the player is above 21 still
    has the dealer at [dealt]. *)
Definition in_round (dealt : list card) (s : Web.Session) : Prop :=
  ∃ t, Web.cards s = Some t ∧
       known_ranks (Web.deck t) ∧ known_ranks (Web.player t) ∧
       known_ranks (Web.dealer t) ∧ length dealt = 2%nat ∧
       ((Web.state s = Some "playing" ∧ Web.dealer t = dealt ∧
         (38 <= length (Web.deck t) + length (Web.player t))%nat ∧
         ∃ v, hand_value (Web.player t) = Ok v ∧ v <= 21) ∨
        (Web.state s = Some "done" ∧
         ∀ v, hand_value (Web.player t) = Ok v → 21 < v → Web.dealer t = dealt)).

(** A card of each rank in spades, for the examples. *)
Definition spade (rank : string) : card := (rank, "♠").

(** A finished round (the player went bust) and a session left in the
    dealer's turn, for the examples. *)
Definition bust_session : Web.Session :=
  Web.mkSession
    (Some (Web.mkTable (spade <$> ["3"; "5"; "K"])
                       (spade <$> ["10"; "7"; "Q"])
                       (spade <$> ["6"; "9"])))
    (Some "done").

Definition dealer_session : Web.Session :=
  Web.mkSession
    (Some (Web.mkTable (spade <$> ["3"; "5"; "K"])
                       (spade <$> ["10"; "7"])
                       (spade <$> ["6"; "9"])))
    (Some "dealer").

(** A round in the player's turn. *)
Definition playing_table : Web.Table :=
  Web.mkTable (spade <$> ["3"; "5"; "K"]) (spade <$> ["10"; "7"]) (spade <$> ["6"; "9"]).

Definition playing_session : Web.Session :=
  Web.mkSession (Some playing_table) (Some "playing").

Definition hit_request : Web.Request := Web.mkRequest "POST" (Some "hit").
Definition stand_request : Web.Request := Web.mkRequest "POST" (Some "stand").

(** A random source for the examples. *)
Definition example_rng : rng := fun n => (7 * n + 3)%nat.

(** The cards of a session are conserved from [s] to [s']: deck and hands
    together hold the same cards, or there are no lists before and after. *)
Definition conserved (s s' : Web.Session) : Prop :=
  match Web.cards s, Web.cards s' with
  | Some t, Some t' =>
      Web.deck t' ++ Web.player t' ++ Web.dealer t' ≡ₚ
      Web.deck t ++ Web.player t ++ Web.dealer t
  | None, None => True
  | _, _ => False
  end.

(** A computation keeps a relation between the store it starts from and the
    store it leaves, whether it returns or raises. *)
Definition keeps {S A} (R : relation S) (m : M S A) : Prop :=
  ∀ s, R s (m s).1.

(** The answers [player_turn] takes for a Hit and for a Stand, and the
    answer [main] takes for another round. *)
Definition hit_answer (line : string) : Prop := lower (strip line) ∈ ["h"; "hit"].
Definition stand_answer (line : string) : Prop := lower (strip line) ∈ ["s"; "stand"].
Definition yes_answer (line : string) : Prop := lower (strip line) ∈ ["y"; "yes"].

(** How a player's turn can end, where [used] are the lines read, [rest] the
    lines left, [drawn] the cards drawn and [deck'] and [hand'] the lists as
    the turn leaves them: returning after a Stand or after the draw that went
    above 21; or raising, at the end of the input, on a Hit with the deck
    empty, or at a card that has no value. *)
Definition player_end (used rest : list string) (drawn deck' hand' : list card)
    (r : result (list card * list card)) : Prop :=
  (r = Ok (deck', hand') ∧
   ((∃ u line, used = u ++ [line] ∧ stand_answer line ∧
               ∃ v, hand_value hand' = Ok v ∧ (drawn ≠ [] → v <= 21)) ∨
    (∃ u line, used = u ++ [line] ∧ hit_answer line ∧ drawn ≠ [] ∧
               ∃ v, hand_value hand' = Ok v ∧ 21 < v))) ∨
  (r = Err EOFError ∧ rest = [] ∧
   ∃ v, hand_value hand' = Ok v ∧ (drawn ≠ [] → v <= 21)) ∨
  (r = Err IndexError ∧ deck' = [] ∧
   (∃ u line, used = u ++ [line] ∧ hit_answer line) ∧
   ∃ v, hand_value hand' = Ok v ∧ (drawn ≠ [] → v <= 21)) ∨
  (r = Err ValueError ∧ hand_value hand' = Err ValueError).

(** How a round at the console has ended when it returns: both hands have a
    value; either the player is above 21, the dealer holds the two cards dealt
    and the last line shows them; or the player is at 21 or less, the dealer
    at 17 or more and the last line names the winner, the player when the
    dealer is above 21 or behind, the dealer otherwise. *)
Definition round_end (player' dealer' : list card) (out : list string) : Prop :=
  ∃ pv dv, hand_value player' = Ok pv ∧ hand_value dealer' = Ok dv ∧
    ((21 < pv ∧ length dealer' = 2%nat ∧
      last out = Some ("Dealer hand was: " +:+ format_hand dealer' +:+
                       " (value: " +:+ str_of_int dv +:+ ")")) ∨
     (pv <= 21 ∧ 17 <= dv ∧
      last out = Some (if bool_decide (21 < dv ∨ dv < pv) then "You win!"
                       else "Dealer wins! (Dealer wins ties)"))).

(** Cards of the standard deck: a rank of RANKS with a suit of SUITS. *)
Definition standard (hand : list card) : Prop :=
  Forall (fun c : card => c.1 ∈ RANKS ∧ c.2 ∈ SUITS) hand.

(** A page that shows the round as the table [t] holds it: the player's hand
    and its value; of the dealer, during the player's turn the first card
    alone and its value, afterwards the whole hand and its value. *)
Definition shows (page : Web.Page) (t : Web.Table) : Prop :=
  Web.player_hand page = format_hand (Web.player t) ∧
  hand_value (Web.player t) = Ok (Web.player_value page) ∧
  if bool_decide (Web.page_state page = "playing")
  then ∃ up rest, Web.dealer t = up :: rest ∧
         Web.dealer_hand page = format_hand [up] +:+ " [hidden]" ∧
         hand_value [up] = Ok (Web.dealer_value page)
  else Web.dealer_hand page = format_hand (Web.dealer t) ∧
       hand_value (Web.dealer t) = Ok (Web.dealer_value page).

(** The message of a page agrees with the values on it: no message; or the
    bust of the player, above 21; or, with the dealer at 17 or more, the
    player's win at 21 or less with the dealer above 21 or behind, or the
    dealer's win otherwise.  A page with a message is a page of a finished
    round. *)
Definition verdict (page : Web.Page) : Prop :=
  let pv := Web.player_value page in
  let dv := Web.dealer_value page in
  Web.message page = "" ∨
  (Web.page_state page = "done" ∧
   ((Web.message page = "You busted! Dealer wins." ∧ 21 < pv) ∨
    (Web.message page = "You win!" ∧ 17 <= dv ∧ pv <= 21 ∧ (21 < dv ∨ dv < pv)) ∨
    (Web.message page = "Dealer wins! (Dealer wins ties)" ∧ 17 <= dv ∧
     (21 < pv ∨ (dv <= 21 ∧ pv <= dv))))).

(** Two tables that look the same to the player for the next [k] draws: the
    same player's hand, the same first card of the dealer and the same [k]
    cards on top of the deck.  What else the dealer holds and the rest of
    the deck may differ. *)
Definition same_view (k : nat) (t1 t2 : Web.Table) : Prop :=
  Web.player t1 = Web.player t2 ∧
  head (Web.dealer t1) = head (Web.dealer t2) ∧
  take k (reverse (Web.deck t1)) = take k (reverse (Web.deck t2)).

(** The cards a request can draw during the player's turn: one for a Hit. *)
Definition cards_drawn (req : Web.Request) : nat :=
  if bool_decide (Web.method req = "POST" ∧ Web.action req = Some "hit")
  then 1%nat else 0%nat.

(** The table that [/start] deals from a random source, and two sources for
    the examples: the second one deals what the first one deals but for the
    dealer's second card, which has changed places with the bottom card of
    the deck. *)
Definition dealt_table (g : rng) : Web.Table :=
  default (Web.mkTable [] [] [])
          (Web.cards (Web.start g (Web.mkSession None None)).1).

Definition other_rng : rng := fun n => (3 * n + 2)%nat.

Definition exchanged_rng : rng := fun n =>
  nth n [2; 5; 8; 1; 14; 17; 20; 23; 26; 29; 32; 35; 38; 2; 6; 10; 14; 18;
         22; 26; 30; 3; 8; 13; 18; 23; 2; 8; 14; 20; 4; 1; 18; 6; 14; 5; 14;
         8; 4; 2; 2; 4; 8; 5; 6; 4; 1; 3; 1; 1; 0]%nat O.

(** The request that a player's answer at the console is on the web: a Hit
    and a Stand are posted, any other answer only asks for the page again. *)
Definition request_of (line : string) : Web.Request :=
  if bool_decide (lower (strip line) ∈ ["h"; "hit"]) then hit_request
  else if bool_decide (lower (strip line) ∈ ["s"; "stand"]) then stand_request
  else Web.mkRequest "GET" None.

(** Requests to [/game] sent one after the other, up to the first that is
    not answered; the pages answered. *)
Fixpoint requests (reqs : list Web.Request) : M Web.Session (list Web.Page) :=
  match reqs with
  | [] => mret []
  | req :: reqs =>
      page ← Web.game req;
      pages ← requests reqs;
      mret (page :: pages)
  end.

(** The session of a round, by its lists and its state. *)
Definition round_session (deck player dealer : list card) (st : string)
  : Web.Session :=
  Web.mkSession (Some (Web.mkTable deck player dealer)) (Some st).

(** The page of a finished round. *)
Definition done_page (player dealer : list card) (pv dv : Z) (msg : string)
  : Web.Page :=
  Web.mkPage (format_hand player) pv (format_hand dealer) dv "done" msg.

(** * Tactics *)

(** Unfold the operations of the two monads. *)
Ltac unfold_M :=
  unfold gets, modify, lift, raise, mbind, M_bind, result_bind, mret, M_ret,
    result_ret in *; simpl in *.

(** Decide the comparisons of two closed strings (or options of strings). *)
Ltac decide_eq :=
  repeat match goal with
  | |- context [bool_decide (?a = ?b)] =>
      first [ rewrite (bool_decide_eq_true_2 (a = b)) by done
            | rewrite (bool_decide_eq_false_2 (a = b)) by done ]; simpl
  end.

(** Unfold the handler of [/game] down to the operations on the session. *)
Ltac unfold_game :=
  unfold Web.game, Web.player_step, Web.dealer_step, Web.hit, Web.run_dealer,
    Web.set_state, Web.on_table; unfold_M.

(** A list of cards whose ranks are known by hypotheses. *)
Ltac known_cards :=
  unfold known_ranks in *;
  repeat (apply Forall_cons_2; [done|]); try apply Forall_nil_2; try done.

(** * Proofs *)

(** ** Lists as stacks *)

Lemma pop_nil {A} : pop (@nil A) = Err IndexError.
Proof. reflexivity. Qed.

Lemma pop_snoc {A} (l : list A) (x : A) : pop (l ++ [x]) = Ok (x, l).
Proof. unfold pop. by rewrite reverse_snoc, reverse_involutive. Qed.

Lemma pop_Ok {A} (l l' : list A) (x : A) :
  pop l = Ok (x, l') -> l = l' ++ [x].
Proof.
  destruct l as [|y l0] using rev_ind; [done|].
  rewrite pop_snoc. by intros [= -> ->].
Qed.

Lemma pop_Err {A} (l : list A) (e : exn) :
  pop l = Err e -> l = [] ∧ e = IndexError.
Proof.
  destruct l as [|y l0] using rev_ind; [by intros [= <-]|].
  by rewrite pop_snoc.
Qed.

(** ** Scoring *)

Lemma card_value_error rank e : card_value rank = Err e -> e = ValueError.
Proof.
  unfold card_value, py_int. repeat case_bool_decide; try done.
  by repeat case_match; intros [= <-].
Qed.

Lemma tally_error hand v a e : tally hand v a = Err e -> e = ValueError.
Proof.
  revert v a. induction hand as [|[rank suit] rest IH]; intros v a; simpl; [done|].
  destruct (card_value rank) as [x|e'] eqn:E; simpl.
  - apply IH.
  - intros [= <-]. by eapply card_value_error.
Qed.

Lemma hand_value_error hand e : hand_value hand = Err e -> e = ValueError.
Proof.
  unfold hand_value. destruct (tally hand 0 0) as [[v a]|e'] eqn:E; simpl; [done|].
  intros [= <-]. by eapply tally_error.
Qed.

Lemma tally_Permutation p q :
  p ≡ₚ q -> ∀ v a, tally p v a = tally q v a.
Proof.
  induction 1 as [|[r s] p q _ IH|[r1 s1] [r2 s2] p|p q o _ IH1 _ IH2];
    intros v a; simpl.
  - done.
  - destruct (card_value r); simpl; [apply IH|done].
  - destruct (card_value r1) as [v1|e1] eqn:E1,
             (card_value r2) as [v2|e2] eqn:E2; simpl; try done.
    + replace (v + v2 + v1) with (v + v1 + v2) by lia.
      by repeat case_bool_decide.
    + apply card_value_error in E1, E2. congruence.
  - by rewrite IH1.
Qed.

(** What [card_value] and [countings] say of each of the thirteen ranks. *)
Lemma card_value_known rank :
  rank ∈ RANKS ->
  ∃ v, card_value rank = Ok v ∧ 2 <= v <= 11 ∧
       countings rank = (if bool_decide (rank = "A") then [v; v - 10] else [v]) ∧
       low_countings rank = (if bool_decide (rank = "A") then [v - 10] else [v]).
Proof.
  unfold RANKS. rewrite !elem_of_cons, elem_of_nil.
  intros H. repeat destruct H as [->|H]; try done;
    eexists; (split; [vm_compute; reflexivity|]); (split; [lia|]);
    (split; reflexivity).
Qed.

(** Membership in the totals of a hand with one more card. *)
Lemma totals_by_cons count rank suit rest t :
  t ∈ totals_by count ((rank, suit) :: rest) ↔
  ∃ p t', p ∈ count rank ∧ t' ∈ totals_by count rest ∧ t = p + t'.
Proof.
  simpl. rewrite list_elem_of_bind. split.
  - intros (p & (t' & ->%list_elem_of_singleton & Ht')%list_elem_of_bind & Hp). eauto.
  - intros (p & t' & Hp & Ht' & ->). exists p. split; [|done].
    apply list_elem_of_bind. exists t'. split; [|done]. by apply list_elem_of_singleton.
Qed.

(** The loop over a hand of known ranks adds a base [b] (every Ace at 11)
    and counts [k] Aces; the totals of the hand are [b], [b - 10], ...,
    [b - 10 * k], the last of them with every Ace as 1. *)
Lemma tally_known hand :
  known_ranks hand ->
  ∃ (b : Z) (k : nat),
    (∀ v a, tally hand v a = Ok (v + b, (a + k)%nat)) ∧
    (∀ t, t ∈ totals hand ↔ ∃ j : nat, (j <= k)%nat ∧ t = b - 10 * Z.of_nat j) ∧
    (∀ t, t ∈ low_totals hand ↔ t = b - 10 * Z.of_nat k) ∧
    Z.of_nat (length hand) <= b - 10 * Z.of_nat k.
Proof.
  unfold totals, low_totals.
  induction 1 as [|[rank suit] rest Hr _ (b & k & Ht & Hm & Hlow & Hlen)].
  { exists 0, O. split; [|split; [|split]]; simpl.
    - intros v a. do 2 f_equal; [lia|by rewrite Nat.add_0_r].
    - intros t. rewrite list_elem_of_singleton. split.
      + intros ->. exists O. split; [done|lia].
      + intros (j & Hj & ->). replace j with O by lia. lia.
    - intros t. rewrite list_elem_of_singleton. lia.
    - lia. }
  destruct (card_value_known rank Hr) as (x & Hx & Hrange & Hc & Hl).
  simpl in Hr.
  assert (Htally : ∀ v a,
            tally ((rank, suit) :: rest) v a =
            Ok (v + (x + b), (a + (if bool_decide (rank = "A") then S k else k))%nat)).
  { intros v a. simpl. rewrite Hx. simpl. rewrite Ht.
    case_bool_decide; do 2 f_equal; lia. }
  case_bool_decide as HA.
  - exists (x + b), (S k). subst rank. injection Hx as <-.
    split; [done|]. split; [|split; [|simpl; lia]].
    + intros t. rewrite totals_by_cons, Hc. split.
      * intros (p & t' & Hp & (j & Hj & ->)%Hm & ->).
        apply elem_of_cons in Hp as [-> | Hp].
        -- exists j. split; lia.
        -- apply list_elem_of_singleton in Hp as ->. exists (S j). split; lia.
      * intros (j & Hj & ->). destruct j as [|j].
        -- exists 11, b. split; [apply elem_of_cons; by left|].
           split; [apply Hm; exists O; split; lia|lia].
        -- exists (11 - 10), (b - 10 * Z.of_nat j).
           split; [apply elem_of_cons; right; by apply list_elem_of_singleton|].
           split; [apply Hm; exists j; split; lia|lia].
    + intros t. rewrite totals_by_cons, Hl. split.
      * intros (p & t' & ->%list_elem_of_singleton & ->%Hlow & ->). lia.
      * intros ->. exists (11 - 10), (b - 10 * Z.of_nat k).
        split; [by apply list_elem_of_singleton|]. split; [by apply Hlow|lia].
  - exists (x + b), k. split; [done|]. split; [|split; [|simpl; lia]].
    + intros t. rewrite totals_by_cons, Hc. split.
      * intros (p & t' & ->%list_elem_of_singleton & (j & Hj & ->)%Hm & ->).
        exists j. split; lia.
      * intros (j & Hj & ->). exists x, (b - 10 * Z.of_nat j).
        split; [by apply list_elem_of_singleton|].
        split; [apply Hm; exists j; split; lia|lia].
    + intros t. rewrite totals_by_cons, Hl. split.
      * intros (p & t' & ->%list_elem_of_singleton & ->%Hlow & ->). lia.
      * intros ->. exists x, (b - 10 * Z.of_nat k).
        split; [by apply list_elem_of_singleton|]. split; [by apply Hlow|lia].
Qed.

(** The [while] loop lowers [j] Aces, no more than there are, and each one
    only while the value was above 21; it stops at a value of at most 21 or
    when no Ace is left. *)
Lemma soften_spec (k : nat) (b : Z) :
  ∃ j : nat, (j <= k)%nat ∧ soften k b = b - 10 * Z.of_nat j ∧
    (∀ i : nat, (i < j)%nat → 21 < b - 10 * Z.of_nat i) ∧
    (soften k b <= 21 ∨ j = k).
Proof.
  revert b. induction k as [|k IH]; intros b; simpl.
  { exists O. split; [lia|]. split; [lia|]. split; [lia|by right]. }
  destruct (21 <? b) eqn:E.
  - apply Z.ltb_lt in E. destruct (IH (b - 10)) as (j & Hj & -> & Hlt & Hstop).
    exists (S j). split; [lia|]. split; [lia|]. split; [|lia].
    intros [|i] Hi; [lia|]. specialize (Hlt i). lia.
  - apply Z.ltb_ge in E. exists O. split; [lia|]. split; [lia|]. split; [lia|by left].
Qed.

Lemma hand_value_known hand :
  known_ranks hand -> ∃ v, hand_value hand = Ok v ∧ best_total hand v ∧
                           Z.of_nat (length hand) <= v.
Proof.
  intros (b & k & Ht & Hm & Hlow & Hlen)%tally_known.
  unfold hand_value. rewrite Ht. simpl.
  destruct (soften_spec k (0 + b)) as (j & Hj & Hv & Hlt & Hstop).
  eexists. split; [reflexivity|]. rewrite Hv in *. split; [split|lia].
  - apply Hm. exists j. split; [done|lia].
  - destruct (decide (0 + b - 10 * Z.of_nat j <= 21)) as [Hle|Hgt].
    + left. split; [done|]. intros t (i & Hi & ->)%Hm Ht21.
      destruct (decide (i < j)%nat) as [Hij|Hij]; [|lia].
      specialize (Hlt i Hij). lia.
    + right. destruct Hstop as [Hs | ->]; [lia|].
      split; [|split]; [|apply Hlow; lia|]; intros t (i & Hi & ->)%Hm; lia.
Qed.

(** C1. For every hand of cards of the deck, [hand_value] returns the best
    total: the largest total at most 21 that counting each Ace as 11 or as 1
    gives (J/Q/K as 10, number cards at face value), or, when every counting
    is above 21, the smallest total (every Ace as 1), not clamped.  Two Aces are 12; Ace, 9,
    Ace is 21; King, Queen, Ace is 21; 10, 10, 5 is 25. *)
Theorem hand_value_best_total :
  (∀ hand, known_ranks hand → ∃ v, hand_value hand = Ok v ∧ best_total hand v) ∧
  (∀ s1 s2, hand_value [("A", s1); ("A", s2)] = Ok 12) ∧
  (∀ s1 s2 s3, hand_value [("A", s1); ("9", s2); ("A", s3)] = Ok 21) ∧
  (∀ s1 s2 s3, hand_value [("K", s1); ("Q", s2); ("A", s3)] = Ok 21) ∧
  (∀ s1 s2 s3, hand_value [("10", s1); ("10", s2); ("5", s3)] = Ok 25).
Proof.
  split; [|by repeat split].
  intros hand (v & Hv & Hbest & _)%hand_value_known. by exists v.
Qed.

Lemma hand_value_best_total_witness :
  known_ranks [("A", "♠"); ("9", "♥"); ("A", "♦")] ∧
  ∃ v, hand_value [("A", "♠"); ("9", "♥"); ("A", "♦")] = Ok v ∧
       best_total [("A", "♠"); ("9", "♥"); ("A", "♦")] v.
Proof.
  assert (H : known_ranks [("A", "♠"); ("9", "♥"); ("A", "♦")]).
  { repeat constructor; simpl; apply (bool_decide_unpack _); exact I. }
  split; [exact H|].
  exact (proj1 hand_value_best_total _ H).
Defined.

(** C7. Reordering the cards of a hand never changes what [hand_value]
    returns (the value, or the exception for a rank that is no number). *)
Theorem hand_value_Permutation (p q : list card) :
  p ≡ₚ q → hand_value p = hand_value q.
Proof.
  intros H. unfold hand_value. by rewrite (tally_Permutation p q H).
Qed.

Lemma hand_value_Permutation_witness :
  hand_value [("A", "♠"); ("9", "♥"); ("K", "♦")] =
  hand_value [("K", "♦"); ("A", "♠"); ("9", "♥")].
Proof.
  apply hand_value_Permutation. symmetry.
  apply (Permutation_cons_append [("A", "♠"); ("9", "♥")] ("K", "♦")).
Defined.

(** ** The winner *)

Lemma determine_winner_values player dealer p d :
  hand_value player = Ok p → hand_value dealer = Ok d →
  determine_winner player dealer =
  Ok (if 21 <? p then "dealer" else if 21 <? d then "player"
      else if d <? p then "player" else "dealer").
Proof.
  intros Hp Hd. unfold determine_winner. rewrite Hp, Hd. simpl.
  by repeat case_match.
Qed.

(** C2. [determine_winner] returns for every pair of hands that have a value,
    and only 'player' or 'dealer' (never 'push'): the dealer wins when the
    player is above 21; else the player wins when the dealer is above 21; else
    the player wins when strictly ahead; else the dealer wins, ties included.
    21 against 21 and 22 against 20 go to the dealer, 20 against 22 and 19
    against 18 to the player. *)
Theorem determine_winner_cascade :
  (∀ player dealer, known_ranks player → known_ranks dealer →
     ∃ w, determine_winner player dealer = Ok w) ∧
  (∀ player dealer p d,
     hand_value player = Ok p → hand_value dealer = Ok d →
     ∃ w, determine_winner player dealer = Ok w ∧
          (w = "player" ∨ w = "dealer") ∧ w ≠ "push" ∧
          (21 < p → w = "dealer") ∧
          (p <= 21 → 21 < d → w = "player") ∧
          (p <= 21 → d <= 21 → d < p → w = "player") ∧
          (p <= 21 → d <= 21 → p <= d → w = "dealer")) ∧
  determine_winner [("K", "♠"); ("A", "♠")] [("Q", "♥"); ("A", "♥")] = Ok "dealer" ∧
  determine_winner [("K", "♠"); ("Q", "♠"); ("2", "♠")] [("K", "♥"); ("Q", "♥")]
    = Ok "dealer" ∧
  determine_winner [("K", "♠"); ("Q", "♠")] [("K", "♥"); ("Q", "♥"); ("2", "♥")]
    = Ok "player" ∧
  determine_winner [("K", "♠"); ("9", "♠")] [("K", "♥"); ("8", "♥")] = Ok "player".
Proof.
  split; [|split; [|by repeat split]].
  - intros player dealer (p & Hp & _)%hand_value_known (d & Hd & _)%hand_value_known.
    eexists. by apply determine_winner_values.
  - intros player dealer p d Hp Hd.
    rewrite (determine_winner_values _ _ _ _ Hp Hd). eexists. split; [done|].
    destruct (21 <? p) eqn:E1; [apply Z.ltb_lt in E1|apply Z.ltb_ge in E1];
    (destruct (21 <? d) eqn:E2; [apply Z.ltb_lt in E2|apply Z.ltb_ge in E2]);
    (destruct (d <? p) eqn:E3; [apply Z.ltb_lt in E3|apply Z.ltb_ge in E3]);
    repeat split; first [done | lia | by left | by right].
Qed.

Lemma determine_winner_cascade_witness :
  ∃ w, determine_winner [("K", "♠"); ("A", "♠")] [("9", "♥"); ("7", "♥"); ("5", "♦")]
       = Ok w.
Proof.
  apply (proj1 determine_winner_cascade);
    repeat constructor; simpl; apply (bool_decide_unpack _); exact I.
Defined.

(** ** The deck *)

Lemma swap_Permutation {A} (x : list A) (i j : nat) : swap x i j ≡ₚ x.
Proof.
  unfold swap. destruct (x !! i) as [xi|] eqn:Ei; [|done].
  destruct (x !! j) as [xj|] eqn:Ej; [|done].
  by apply Permutation_insert_swap.
Qed.

Lemma swap_length {A} (x : list A) (i j : nat) : length (swap x i j) = length x.
Proof. apply Permutation_length, swap_Permutation. Qed.

Lemma shuffle_from_Permutation {A} (i : nat) (x : list A) (g : rng) :
  (shuffle_from i x g).1 ≡ₚ x.
Proof.
  revert x g. induction i as [|i IH]; intros x g; simpl; [done|].
  rewrite IH. apply swap_Permutation.
Qed.

Lemma shuffle_from_in_range {A} (i : nat) (x : list A) (g : rng) :
  (i < length x)%nat → swaps_in_range i x g.
Proof.
  revert x g. induction i as [|i IH]; intros x g Hi; simpl; [done|].
  assert (Hj : (g O `mod` S (S i) < S (S i))%nat) by (apply Nat.mod_upper_bound; lia).
  split; [apply lookup_lt_is_Some; lia|].
  split; [apply lookup_lt_is_Some; lia|].
  apply IH. rewrite swap_length. lia.
Qed.

Lemma unshuffled_deck g :
  (build_deck false g).1 = suit ← SUITS; rank ← RANKS; [(rank, suit)].
Proof. reflexivity. Qed.

Lemma unshuffled_deck_elem (rank suit : string) g :
  (rank, suit) ∈ (build_deck false g).1 ↔ rank ∈ RANKS ∧ suit ∈ SUITS.
Proof.
  rewrite unshuffled_deck, list_elem_of_bind. split.
  - intros (s & (r & Heq & Hr)%list_elem_of_bind & Hs).
    apply list_elem_of_singleton in Heq as [= -> ->]. done.
  - intros [Hr Hs]. exists suit. split; [|done].
    apply list_elem_of_bind. exists rank. split; [|done].
    by apply list_elem_of_singleton.
Qed.

(** C8. [build_deck] always yields 52 distinct (rank, suit) pairs, one for
    each of the 4 suits and 13 ranks.  Not shuffled, the order is suit-major
    and rank-minor (card [13 * i + j] has suit [i] and rank [j]) and the
    random source is not used; shuffled, the deck is a permutation of the
    unshuffled one, whatever the state of the random source. *)
Theorem build_deck_standard :
  (∀ shuffle g,
     length (build_deck shuffle g).1 = 52%nat ∧
     NoDup (build_deck shuffle g).1 ∧
     ∀ rank suit, (rank, suit) ∈ (build_deck shuffle g).1 ↔
                  rank ∈ RANKS ∧ suit ∈ SUITS) ∧
  (∀ g (i j : nat) suit rank,
     SUITS !! i = Some suit → RANKS !! j = Some rank →
     (build_deck false g).1 !! (13 * i + j)%nat = Some (rank, suit)) ∧
  (∀ g, (build_deck false g).2 = g) ∧
  (∀ g, (build_deck true g).1 ≡ₚ (build_deck false g).1).
Proof.
  assert (Hperm : ∀ g, (build_deck true g).1 ≡ₚ (build_deck false g).1).
  { intros g. unfold build_deck, random_shuffle. apply shuffle_from_Permutation. }
  assert (Hplain : ∀ g, length (build_deck false g).1 = 52%nat ∧
                        NoDup (build_deck false g).1).
  { intros g. split; [reflexivity|]. apply (bool_decide_unpack _). by vm_compute. }
  split; [|split; [|split]]; [| |done|done].
  - intros [] g.
    + split; [|split].
      * rewrite (Permutation_length (Hperm g)). apply (Hplain g).
      * rewrite (Hperm g). apply (Hplain g).
      * intros rank suit. rewrite (Hperm g). apply unshuffled_deck_elem.
    + split; [|split]; [apply (Hplain g)..|].
      intros rank suit. apply unshuffled_deck_elem.
  - intros g i j suit rank Hs Hr.
    do 4 (destruct i as [|i]; [injection Hs as <-;
      do 13 (destruct j as [|j]; [by injection Hr as <-|]); done|]).
    done.
Qed.

Lemma build_deck_standard_witness :
  (build_deck false example_rng).1 !! (13 * 1 + 1)%nat = Some ("3", "♥").
Proof.
  apply (proj1 (proj2 build_deck_standard) example_rng 1%nat 1%nat "♥" "3");
    reflexivity.
Defined.

Lemma pop_card_snoc deck c : pop_card (deck ++ [c]) = (deck, Ok c).
Proof. unfold pop_card. by rewrite pop_snoc. Qed.

Lemma deal_initial_hands_snoc rest d2 d1 p2 p1 :
  deal_initial_hands (rest ++ [d2; d1; p2; p1]) = (rest, Ok ([p1; p2], [d1; d2])).
Proof.
  unfold deal_initial_hands, mbind, M_bind.
  replace (rest ++ [d2; d1; p2; p1]) with ((((rest ++ [d2]) ++ [d1]) ++ [p2]) ++ [p1])
    by by rewrite <- !app_assoc.
  by rewrite !pop_card_snoc.
Qed.

Lemma last_four {A} (deck : list A) :
  (4 <= length deck)%nat → ∃ rest d2 d1 p2 p1, deck = rest ++ [d2; d1; p2; p1].
Proof.
  intros Hlen.
  destruct deck as [|p1 deck] using rev_ind; [simpl in Hlen; lia|].
  destruct deck as [|p2 deck _] using rev_ind;
    [rewrite ?length_app in Hlen; simpl in Hlen; lia|].
  destruct deck as [|d1 deck _] using rev_ind;
    [rewrite ?length_app in Hlen; simpl in Hlen; lia|].
  destruct deck as [|d2 deck _] using rev_ind;
    [rewrite ?length_app in Hlen; simpl in Hlen; lia|].
  exists deck, d2, d1, p2, p1. by rewrite <- !app_assoc.
Qed.

Lemma deal_initial_hands_short deck :
  (length deck < 4)%nat → deal_initial_hands deck = ([], Err IndexError).
Proof.
  intros Hlen. unfold deal_initial_hands, mbind, M_bind.
  destruct deck as [|p1 deck] using rev_ind; [done|].
  rewrite pop_card_snoc.
  destruct deck as [|p2 deck _] using rev_ind; [done|].
  rewrite pop_card_snoc.
  destruct deck as [|d1 deck _] using rev_ind; [done|].
  rewrite pop_card_snoc.
  destruct deck as [|d2 deck _] using rev_ind; [done|].
  rewrite !length_app in Hlen. simpl in Hlen. lia.
Qed.

(** C9. The initial deal takes the deck's last four cards, not alternating:
    the player gets the last card and the one before it, the dealer the next
    two; the rest of the deck is what is left, unchanged and in its order.  A
    deck of fewer than four cards raises IndexError (and is left empty). *)
Theorem deal_initial_hands_top_four :
  (∀ rest d2 d1 p2 p1,
     deal_initial_hands (rest ++ [d2; d1; p2; p1]) = (rest, Ok ([p1; p2], [d1; d2]))) ∧
  (∀ deck player dealer deck',
     deal_initial_hands deck = (deck', Ok (player, dealer)) →
     deck = deck' ++ reverse (player ++ dealer) ∧
     length player = 2%nat ∧ length dealer = 2%nat ∧
     (length deck' + 4 = length deck)%nat) ∧
  (∀ deck, (4 <= length deck)%nat →
     ∃ player dealer deck', deal_initial_hands deck = (deck', Ok (player, dealer))) ∧
  (∀ deck, (length deck < 4)%nat → deal_initial_hands deck = ([], Err IndexError)).
Proof.
  pose proof deal_initial_hands_snoc as Hdeal.
  pose proof (@last_four card) as Hshape.
  split; [done|split; [|split]].
  - intros deck player dealer deck' H.
    destruct (decide (4 <= length deck)%nat) as [Hlen|Hlen].
    + destruct (Hshape deck Hlen) as (rest & d2 & d1 & p2 & p1 & ->).
      rewrite Hdeal in H. injection H as <- <- <-.
      rewrite !length_app. simpl. split; [done|]. split; [done|]. split; [done|lia].
    + rewrite deal_initial_hands_short in H by lia. done.
  - intros deck (rest & d2 & d1 & p2 & p1 & ->)%Hshape. rewrite Hdeal. eauto.
  - apply deal_initial_hands_short.
Qed.

Lemma deal_initial_hands_top_four_witness :
  ∃ player dealer deck',
    deal_initial_hands [("2", "♠"); ("3", "♠"); ("4", "♠"); ("5", "♠"); ("6", "♠")]
    = (deck', Ok (player, dealer)).
Proof.
  apply (proj1 (proj2 (proj2 deal_initial_hands_top_four))). simpl. lia.
Defined.

(** ** The dealer's turn *)

Lemma dealer_turn_unfold deck hand :
  Web.dealer_turn deck hand =
  match hand_value hand with
  | Err e => ((deck, hand), Err e)
  | Ok v =>
      if v <=? 16 then
        match pop deck with
        | Err e => ((deck, hand), Err e)
        | Ok (drawn, deck') => Web.dealer_turn deck' (hand ++ [drawn])
        end
      else ((deck, hand), Ok tt)
  end.
Proof.
  rewrite Web.dealer_turn_equation_1.
  destruct (hand_value hand) as [v|e]; simpl; [|done].
  destruct (v <=? 16); simpl; [|done].
  unfold inspect. by destruct (pop deck) as [[drawn deck']|e].
Qed.

Lemma dealer_turn_run deck hand :
  ∃ drawn deck' hand' r,
    Web.dealer_turn deck hand = ((deck', hand'), r) ∧
    deck = deck' ++ reverse drawn ∧ hand' = hand ++ drawn ∧
    (∀ d1 d2, drawn = d1 ++ d2 → d2 ≠ [] →
              ∃ v, hand_value (hand ++ d1) = Ok v ∧ v <= 16) ∧
    dealer_end deck' hand' r.
Proof.
  revert hand. induction deck as [|c deck IH] using rev_ind; intros hand;
    rewrite dealer_turn_unfold;
    destruct (hand_value hand) as [v|e] eqn:Hv.
  2, 4: exists []; do 3 eexists; (split; [reflexivity|]); rewrite !app_nil_r;
        pose proof (hand_value_error _ _ Hv) as ->;
        (split; [done|]); (split; [done|]);
        (split; [by intros [|??] [|??]|]); right; right; done.
  - destruct (v <=? 16) eqn:E; [apply Z.leb_le in E|apply Z.leb_gt in E].
    + exists [], [], hand, (Err IndexError). rewrite !app_nil_r.
      split; [done|]. split; [done|]. split; [done|].
      split; [by intros [|??] [|??]|]. right; left. eauto.
    + exists [], [], hand, (Ok tt). rewrite !app_nil_r.
      split; [done|]. split; [done|]. split; [done|].
      split; [by intros [|??] [|??]|]. left. split; [done|]. exists v. split; [done|lia].
  - destruct (v <=? 16) eqn:E; [apply Z.leb_le in E|apply Z.leb_gt in E].
    + rewrite pop_snoc.
      destruct (IH (hand ++ [c])) as (drawn & deck' & hand' & r & Hrun & -> & -> & Hpre & Hend).
      exists (c :: drawn), deck', ((hand ++ [c]) ++ drawn), r.
      split; [done|]. split; [by rewrite reverse_cons, app_assoc|].
      split; [by rewrite <- app_assoc|]. split; [|done].
      intros [|c' d1] d2 Heq Hne.
      * rewrite app_nil_r. eauto.
      * simpl in Heq. injection Heq as <- ->.
        destruct (Hpre d1 d2 eq_refl Hne) as (v' & Hv' & Hle).
        exists v'. by rewrite <- app_assoc in Hv'.
    + exists [], (deck ++ [c]), hand, (Ok tt). rewrite !app_nil_r.
      split; [done|]. split; [done|]. split; [done|].
      split; [by intros [|??] [|??]|]. left. split; [done|]. exists v. split; [done|lia].
Qed.

Lemma dealer_loop_unfold deck hand out :
  Console.dealer_loop deck hand out =
  match hand_value hand with
  | Err e => (out, Err e)
  | Ok v =>
      if v <=? 16 then
        match pop deck with
        | Err e => (out, Err e)
        | Ok (drawn, deck') =>
            match hand_value (hand ++ [drawn]) with
            | Err e =>
                (out ++ ["Dealer hits and draws: " +:+ format_card drawn], Err e)
            | Ok v' =>
                Console.dealer_loop deck' (hand ++ [drawn])
                  (out ++ ["Dealer hits and draws: " +:+ format_card drawn;
                           Console.dealers_hand_line (hand ++ [drawn]) v'])
            end
        end
      else (out, Ok (deck, hand))
  end.
Proof.
  rewrite Console.dealer_loop_equation_1.
  destruct (hand_value hand) as [v|e]; simpl; [|done].
  destruct (v <=? 16); simpl; [|done].
  unfold inspect. destruct (pop deck) as [[drawn deck']|e]; simpl; [|done].
  by destruct (hand_value (hand ++ [drawn])).
Qed.

Lemma dealer_loop_agrees deck hand out :
  ∃ out', Console.dealer_loop deck hand out =
          (out', returned (Web.dealer_turn deck hand)).
Proof.
  revert hand out. induction deck as [|c deck IH] using rev_ind; intros hand out;
    rewrite dealer_loop_unfold, dealer_turn_unfold;
    destruct (hand_value hand) as [v|e] eqn:Hv; simpl; eauto;
    destruct (v <=? 16) eqn:E; simpl; eauto.
  rewrite !pop_snoc.
  destruct (hand_value (hand ++ [c])) as [v'|e'] eqn:Hv'.
  - apply IH.
  - rewrite dealer_turn_unfold, Hv'. simpl. eauto.
Qed.

Lemma known_ranks_drawn deck deck' drawn :
  known_ranks deck → deck = deck' ++ reverse drawn → known_ranks drawn.
Proof.
  unfold known_ranks. intros H ->. apply Forall_app in H as [_ H].
  by rewrite Forall_reverse in H.
Qed.

(** With cards of the deck only, the hand that a turn ends with has a value,
    at least the number of its cards. *)
Lemma dealer_turn_hand_known deck hand deck' hand' drawn :
  known_ranks deck → known_ranks hand →
  deck = deck' ++ reverse drawn → hand' = hand ++ drawn →
  known_ranks deck' ∧ known_ranks hand' ∧
  ∃ v, hand_value hand' = Ok v ∧ Z.of_nat (length hand') <= v.
Proof.
  intros Hd Hh Hdeck ->.
  assert (Hk : known_ranks (hand ++ drawn)).
  { apply Forall_app. split; [done|]. exact (known_ranks_drawn _ _ _ Hd Hdeck). }
  split; [|split; [done|]].
  - rewrite Hdeck in Hd. by apply Forall_app in Hd as [Hd _].
  - destruct (hand_value_known _ Hk) as (v & Hv & _ & Hlen). eauto.
Qed.

(** Seventeen cards of the deck in hand and deck together: the dealer stands. *)
Lemma dealer_turn_stands deck hand :
  known_ranks deck → known_ranks hand →
  (17 <= length deck + length hand)%nat →
  ∃ deck' hand' v,
    Web.dealer_turn deck hand = ((deck', hand'), Ok tt) ∧
    known_ranks deck' ∧ known_ranks hand' ∧
    hand_value hand' = Ok v ∧ 17 <= v.
Proof.
  intros Hd Hh Hlen.
  destruct (dealer_turn_run deck hand)
    as (drawn & deck' & hand' & r & Hrun & Hdeck & Hhand & _ & Hend).
  destruct (dealer_turn_hand_known _ _ _ _ _ Hd Hh Hdeck Hhand)
    as (Hd' & Hh' & v & Hv & Hge).
  destruct Hend as [(-> & v' & Hv' & Hle)|[(_ & -> & v' & Hv' & Hle)|(_ & Herr)]];
    [|exfalso|congruence].
  - exists deck', hand', v'. by repeat split.
  - rewrite Hv in Hv'. injection Hv' as <-.
    rewrite Hdeck, Hhand, !length_app, length_reverse in *. simpl in Hlen. lia.
Qed.

(** C3. The dealer's turn draws from the top of the deck and appends to the
    hand exactly while the hand's value is at most 16: every card was drawn at
    a value of at most 16, and the turn ends at 17 or more (a bust included)
    unless the deck is exhausted first.  From a value of at most 16 and a deck
    that is not empty at least one card is drawn; with cards of the deck only,
    nothing else can happen, and seventeen cards in hand and deck together
    are enough to reach 17.  The console version, given a hand with a hole
    card, ends in the same hand and deck. *)
Theorem dealer_turn_policy :
  (∀ deck hand,
     ∃ drawn deck' hand' r,
       Web.dealer_turn deck hand = ((deck', hand'), r) ∧
       deck = deck' ++ reverse drawn ∧ hand' = hand ++ drawn ∧
       (∀ d1 d2, drawn = d1 ++ d2 → d2 ≠ [] →
                 ∃ v, hand_value (hand ++ d1) = Ok v ∧ v <= 16) ∧
       dealer_end deck' hand' r ∧
       (∀ v, hand_value hand = Ok v → v <= 16 → deck ≠ [] → drawn ≠ []) ∧
       (known_ranks deck → known_ranks hand → r ≠ Err ValueError) ∧
       (known_ranks deck → known_ranks hand →
        (17 <= length deck + length hand)%nat → r = Ok tt)) ∧
  (∀ deck hand w,
     (2 <= length hand)%nat →
     ∃ w', Console.dealer_turn deck hand w =
           (w', returned (Web.dealer_turn deck hand)) ∧
           Console.stdin w' = Console.stdin w).
Proof.
  split.
  - intros deck hand.
    destruct (dealer_turn_run deck hand)
      as (drawn & deck' & hand' & r & Hrun & Hdeck & Hhand & Hpre & Hend).
    exists drawn, deck', hand', r.
    do 5 (split; [done|]).
    split; [|split].
    + intros v Hv Hle Hne ->. rewrite app_nil_r in *. subst.
      destruct Hend as [(_ & v' & Hv' & Hge)|[(_ & Hnil & _)|(_ & Herr)]];
        [|done|congruence].
      rewrite Hv in Hv'. injection Hv' as <-. lia.
    + intros Hd Hh ->.
      destruct (dealer_turn_hand_known _ _ _ _ _ Hd Hh Hdeck Hhand)
        as (_ & _ & v & Hv & _).
      destruct Hend as [(? & _)|[(? & _)|(_ & Herr)]]; congruence.
    + intros Hd Hh Hlen.
      destruct (dealer_turn_stands deck hand Hd Hh Hlen) as (? & ? & ? & Hrun' & _).
      rewrite Hrun in Hrun'. by injection Hrun' as _ _ ->.
  - intros deck hand w Hlen.
    destruct hand as [|c0 [|c1 hand]]; [simpl in Hlen; lia..|].
    unfold Console.dealer_turn, mbind, M_bind, lift, Console.print, modify. simpl.
    destruct (hand_value (c0 :: c1 :: hand)) as [v|e] eqn:Hv; simpl.
    + match goal with
      | |- context [Console.dealer_loop ?d ?h ?o] =>
          destruct (dealer_loop_agrees d h o) as (out' & ->)
      end.
      destruct (dealer_turn_run deck (c0 :: c1 :: hand))
        as (drawn & deck' & hand' & r & -> & _ & _ & _ & Hend).
      destruct Hend as [(-> & v' & Hv' & _)|[(-> & _)|(-> & _)]]; simpl; eauto.
      rewrite Hv'. simpl. eauto.
    + rewrite dealer_turn_unfold, Hv. simpl. eauto.
Qed.

Lemma dealer_turn_policy_witness :
  ∃ w', Console.dealer_turn [("5", "♠"); ("2", "♠"); ("K", "♠")]
          [("6", "♥"); ("9", "♥")] (Console.mkWorld [] []) =
        (w', returned (Web.dealer_turn [("5", "♠"); ("2", "♠"); ("K", "♠")]
                                       [("6", "♥"); ("9", "♥")])) ∧
        Console.stdin w' = [].
Proof.
  apply (proj2 dealer_turn_policy [("5", "♠"); ("2", "♠"); ("K", "♠")]
               [("6", "♥"); ("9", "♥")] (Console.mkWorld [] [])).
  simpl. lia.
Defined.

(** ** The web session *)

(** A request that is answered went through the three steps. *)
Lemma game_inv req s s' page :
  Web.game req s = (s', Ok page) →
  ∃ s1 st1 msg1 s2 st2 msg2 t,
    Web.player_step req (default "playing" (Web.state s)) s = (s1, Ok (st1, msg1)) ∧
    Web.dealer_step st1 msg1 s1 = (s2, Ok (st2, msg2)) ∧
    s' = Web.mkSession (Web.cards s2) (Some st2) ∧
    Web.cards s2 = Some t ∧
    Web.render st2 msg2 t = Ok page.
Proof.
  unfold Web.game, Web.set_state, Web.on_table. unfold_M.
  destruct (Web.player_step req _ s) as [s1 [[st1 msg1]|e1]] eqn:E1; [|done].
  destruct (Web.dealer_step st1 msg1 s1) as [s2 [[st2 msg2]|e2]] eqn:E2; [|done].
  destruct (Web.cards s2) as [t|] eqn:Ht; [|done].
  intros [= <- Hr]. exists s1, st1, msg1, s2, st2, msg2, t. by rewrite Ht.
Qed.

Lemma player_step_inv req st s s1 st1 msg1 :
  Web.player_step req st s = (s1, Ok (st1, msg1)) →
  (s1 = s ∧ st1 = st ∧ msg1 = "" ∧
   ¬ (Web.method req = "POST" ∧ st = "playing" ∧
      (Web.action req = Some "hit" ∨ Web.action req = Some "stand"))) ∨
  (Web.method req = "POST" ∧ st = "playing" ∧ Web.action req = Some "stand" ∧
   s1 = Web.mkSession (Web.cards s) (Some "dealer") ∧ st1 = "dealer" ∧ msg1 = "") ∨
  (Web.method req = "POST" ∧ st = "playing" ∧ Web.action req = Some "hit" ∧
   ∃ t c deck' v,
     Web.cards s = Some t ∧ Web.deck t = deck' ++ [c] ∧
     s1 = Web.mkSession (Some (Web.mkTable deck' (Web.player t ++ [c]) (Web.dealer t)))
                        (Web.state s) ∧
     hand_value (Web.player t ++ [c]) = Ok v ∧
     ((21 < v ∧ st1 = "done" ∧ msg1 = "You busted! Dealer wins.") ∨
      (v <= 21 ∧ st1 = "playing" ∧ msg1 = ""))).
Proof.
  unfold Web.player_step, Web.hit, Web.on_table, Web.set_state. unfold_M.
  destruct (bool_decide (Web.method req = "POST")) eqn:Em;
    [apply bool_decide_eq_true in Em|apply bool_decide_eq_false in Em]; simpl;
    [|intros [= <- <- <-]; left; repeat split; tauto].
  destruct (bool_decide (st = "playing")) eqn:Es;
    [apply bool_decide_eq_true in Es|apply bool_decide_eq_false in Es]; simpl;
    [|intros [= <- <- <-]; left; repeat split; tauto].
  destruct (bool_decide (Web.action req = Some "hit")) eqn:Eh;
    [apply bool_decide_eq_true in Eh|apply bool_decide_eq_false in Eh].
  - destruct (Web.cards s) as [t|] eqn:Ht; [|done].
    destruct (pop (Web.deck t)) as [[c deck']|e] eqn:Hpop; [|done]. simpl.
    destruct (hand_value (Web.player t ++ [c])) as [v|e] eqn:Hv; [|done].
    apply pop_Ok in Hpop.
    destruct (21 <? v) eqn:E; [apply Z.ltb_lt in E|apply Z.ltb_ge in E];
      intros [= <- <- <-]; right; right; subst st;
      (do 3 (split; [done|])); exists t, c, deck', v; repeat split; auto.
  - destruct (bool_decide (Web.action req = Some "stand")) eqn:Ea;
      [apply bool_decide_eq_true in Ea|apply bool_decide_eq_false in Ea].
    + intros [= <- <- <-]. right; left. done.
    + intros [= <- <- <-]. left. repeat split; tauto.
Qed.

Lemma dealer_step_inv st msg s s2 st2 msg2 :
  Web.dealer_step st msg s = (s2, Ok (st2, msg2)) →
  (st ≠ "dealer" ∧ s2 = s ∧ st2 = st ∧ msg2 = msg) ∨
  (st = "dealer" ∧ st2 = "done" ∧
   ∃ t deck' dealer' w,
     Web.cards s = Some t ∧
     Web.dealer_turn (Web.deck t) (Web.dealer t) = ((deck', dealer'), Ok tt) ∧
     determine_winner (Web.player t) dealer' = Ok w ∧
     s2 = Web.mkSession (Some (Web.mkTable deck' (Web.player t) dealer')) (Some "done") ∧
     msg2 = (if bool_decide (w = "player") then "You win!"
             else "Dealer wins! (Dealer wins ties)")).
Proof.
  unfold Web.dealer_step, Web.run_dealer, Web.on_table, Web.set_state. unfold_M.
  case_bool_decide as Hst; [|intros [= <- <- <-]; by left].
  destruct (Web.cards s) as [t|] eqn:Ht; [|done].
  destruct (Web.dealer_turn (Web.deck t) (Web.dealer t)) as [[deck' dealer'] [[]|e]] eqn:Hd;
    [|done]. simpl.
  destruct (determine_winner (Web.player t) dealer') as [w|e] eqn:Hw; [|done].
  intros [= <- <- <-]. right. do 2 (split; [done|]).
  by exists t, deck', dealer', w.
Qed.

Lemma render_inv st msg t page :
  Web.render st msg t = Ok page →
  Web.page_state page = st ∧ Web.message page = msg ∧
  Web.player_hand page = format_hand (Web.player t) ∧
  hand_value (Web.player t) = Ok (Web.player_value page).
Proof.
  unfold Web.render. unfold_M.
  destruct (hand_value (Web.player t)) as [pv|]; [|done].
  destruct (if bool_decide (st = "playing") then _ else _) as [dh|]; [|done].
  destruct (if bool_decide (st = "playing") then _ else _) as [dv|]; [|done].
  by intros [= <-].
Qed.

Lemma render_done msg t pv dv :
  hand_value (Web.player t) = Ok pv → hand_value (Web.dealer t) = Ok dv →
  Web.render "done" msg t =
  Ok (Web.mkPage (format_hand (Web.player t)) pv (format_hand (Web.dealer t)) dv
                 "done" msg).
Proof. intros Hp Hd. unfold Web.render. rewrite Hp, Hd. done. Qed.

Lemma render_playing msg t pv c rest v :
  hand_value (Web.player t) = Ok pv → Web.dealer t = c :: rest →
  hand_value [c] = Ok v →
  Web.render "playing" msg t =
  Ok (Web.mkPage (format_hand (Web.player t)) pv (format_hand [c] +:+ " [hidden]") v
                 "playing" msg).
Proof. intros Hp Hd Hv. unfold Web.render. rewrite Hp, Hd. simpl. by rewrite Hv. Qed.

Lemma game_done req s t pv dv :
  Web.cards s = Some t → Web.state s = Some "done" →
  hand_value (Web.player t) = Ok pv → hand_value (Web.dealer t) = Ok dv →
  Web.game req s =
  (s, Ok (Web.mkPage (format_hand (Web.player t)) pv
                     (format_hand (Web.dealer t)) dv "done" "")).
Proof.
  destruct s as [c st]. simpl. intros -> -> Hp Hd.
  unfold_game. decide_eq. rewrite andb_false_r. simpl. decide_eq.
  by rewrite (render_done "" t pv dv Hp Hd).
Qed.

Lemma game_from_dealer req s t deck' dealer' w pv dv :
  Web.cards s = Some t → Web.state s = Some "dealer" →
  Web.dealer_turn (Web.deck t) (Web.dealer t) = ((deck', dealer'), Ok tt) →
  determine_winner (Web.player t) dealer' = Ok w →
  hand_value (Web.player t) = Ok pv → hand_value dealer' = Ok dv →
  Web.game req s =
  (Web.mkSession (Some (Web.mkTable deck' (Web.player t) dealer')) (Some "done"),
   Ok (Web.mkPage (format_hand (Web.player t)) pv (format_hand dealer') dv "done"
         (if bool_decide (w = "player") then "You win!"
          else "Dealer wins! (Dealer wins ties)"))).
Proof.
  destruct s as [c st]. simpl. intros -> -> Hd Hw Hp Hdv.
  unfold_game. decide_eq. rewrite andb_false_r. simpl. decide_eq.
  rewrite Hd. simpl. rewrite Hw. simpl.
  by erewrite render_done.
Qed.

Lemma game_stand req s t deck' dealer' w pv dv :
  Web.method req = "POST" → Web.action req = Some "stand" →
  Web.cards s = Some t → default "playing" (Web.state s) = "playing" →
  Web.dealer_turn (Web.deck t) (Web.dealer t) = ((deck', dealer'), Ok tt) →
  determine_winner (Web.player t) dealer' = Ok w →
  hand_value (Web.player t) = Ok pv → hand_value dealer' = Ok dv →
  Web.game req s =
  (Web.mkSession (Some (Web.mkTable deck' (Web.player t) dealer')) (Some "done"),
   Ok (Web.mkPage (format_hand (Web.player t)) pv (format_hand dealer') dv "done"
         (if bool_decide (w = "player") then "You win!"
          else "Dealer wins! (Dealer wins ties)"))).
Proof.
  destruct s as [c st], req as [m a]. simpl. intros -> -> -> Hst Hd Hw Hp Hdv.
  unfold_game. rewrite Hst. decide_eq.
  rewrite Hd. simpl. rewrite Hw. simpl.
  by erewrite render_done.
Qed.

Lemma game_hit req s t c deck' v :
  Web.method req = "POST" → Web.action req = Some "hit" →
  Web.cards s = Some t → default "playing" (Web.state s) = "playing" →
  Web.deck t = deck' ++ [c] →
  hand_value (Web.player t ++ [c]) = Ok v →
  Web.game req s =
  (Web.mkSession (Some (Web.mkTable deck' (Web.player t ++ [c]) (Web.dealer t)))
                 (Some (if 21 <? v then "done" else "playing")),
   Web.render (if 21 <? v then "done" else "playing")
              (if 21 <? v then "You busted! Dealer wins." else "")
              (Web.mkTable deck' (Web.player t ++ [c]) (Web.dealer t))).
Proof.
  destruct s as [cs st], req as [m a]. simpl. intros -> -> -> Hst Hdeck Hv.
  unfold_game. rewrite Hst. decide_eq. rewrite Hdeck, pop_snoc. simpl. rewrite Hv. simpl.
  destruct (21 <? v); simpl; decide_eq; by destruct (Web.render _ _ _).
Qed.

Lemma game_idle req s t :
  ¬ (Web.method req = "POST" ∧
     (Web.action req = Some "hit" ∨ Web.action req = Some "stand")) →
  Web.cards s = Some t → default "playing" (Web.state s) = "playing" →
  Web.game req s =
  (Web.mkSession (Some t) (Some "playing"), Web.render "playing" "" t).
Proof.
  destruct s as [cs st], req as [m a]. simpl. intros Hreq -> Hst.
  unfold_game. rewrite Hst.
  repeat (case_bool_decide; simpl); try tauto; by destruct (Web.render _ _ _).
Qed.

(** ** Rounds played over the web *)

Lemma two_cards_at_most_21 c1 c2 :
  known_ranks [c1; c2] → ∃ v, hand_value [c1; c2] = Ok v ∧ v <= 21.
Proof.
  destruct c1 as [r1 s1], c2 as [r2 s2].
  intros [H1 [H2 _]%Forall_cons]%Forall_cons. simpl in *. revert H1 H2.
  unfold RANKS. rewrite !elem_of_cons, !elem_of_nil. intros H1 H2.
  repeat destruct H1 as [->|H1]; try done;
    repeat destruct H2 as [->|H2]; try done;
    eexists; (split; [vm_compute; reflexivity|done]).
Qed.

Lemma one_card_value c : known_ranks [c] → ∃ v, hand_value [c] = Ok v.
Proof. intros (v & Hv & _)%hand_value_known. eauto. Qed.

Lemma shuffled_deck_known g : known_ranks (build_deck true g).1.
Proof.
  apply Forall_forall. intros [rank suit] Hin. simpl.
  assert (Hperm : (build_deck true g).1 ≡ₚ (build_deck false g).1).
  { unfold build_deck, random_shuffle. apply shuffle_from_Permutation. }
  rewrite Hperm in Hin. by apply unshuffled_deck_elem in Hin as [? _].
Qed.

Lemma shuffled_deck_length g : length (build_deck true g).1 = 52%nat.
Proof.
  unfold build_deck, random_shuffle.
  by rewrite (Permutation_length (shuffle_from_Permutation _ _ _)).
Qed.

(** [/start] always succeeds and opens a round. *)
Lemma start_in_round g s0 :
  ∃ g' t, Web.start g s0 = (Web.mkSession (Some t) (Some "playing"), Ok g') ∧
          deal_initial_hands (build_deck true g).1 =
            (Web.deck t, Ok (Web.player t, Web.dealer t)) ∧
          in_round (Web.dealer t) (Web.mkSession (Some t) (Some "playing")).
Proof.
  unfold Web.start.
  pose proof (shuffled_deck_known g) as Hk.
  pose proof (shuffled_deck_length g) as Hlen.
  destruct (build_deck true g) as [deck g'] eqn:Hb. simpl in *.
  destruct (last_four deck) as (rest & d2 & d1 & p2 & p1 & ->); [lia|].
  unfold_M. rewrite deal_initial_hands_snoc.
  exists g', (Web.mkTable rest [p1; p2] [d1; d2]). split; [done|]. split; [done|].
  apply Forall_app in Hk as [Hrest H4].
  apply Forall_cons in H4 as [Hd2 H4]. apply Forall_cons in H4 as [Hd1 H4].
  apply Forall_cons in H4 as [Hp2 H4]. apply Forall_cons in H4 as [Hp1 _].
  assert (Hp : known_ranks [p1; p2]) by known_cards.
  exists (Web.mkTable rest [p1; p2] [d1; d2]). simpl.
  split; [done|]. split; [done|]. split; [done|].
  split; [known_cards|]. split; [done|]. left.
  split; [done|]. split; [done|].
  split; [rewrite length_app in Hlen; simpl in *; lia|].
  by apply two_cards_at_most_21.
Qed.

(** Every request of a round is answered, and leaves a round. *)
Lemma game_in_round dealt req s :
  in_round dealt s →
  ∃ s' page, Web.game req s = (s', Ok page) ∧ in_round dealt s' ∧
             Web.state s' = Some (Web.page_state page).
Proof.
  intros (t & Ht & Hkd & Hkp & Hkl & Hlen &
          [(Hst & Hdealt & Hcards & v & Hv & Hle)|(Hst & Hbust)]).
  2: { destruct (hand_value_known _ Hkp) as (pv & Hpv & _).
       destruct (hand_value_known _ Hkl) as (dv & Hdv & _).
       rewrite (game_done req s t pv dv Ht Hst Hpv Hdv).
       do 2 eexists. split; [done|]. split; [|done].
       exists t. do 5 (split; [done|]). by right. }
  assert (Hdef : default "playing" (Web.state s) = "playing") by by rewrite Hst.
  destruct (hand_value_known _ Hkp) as (v0 & Hv0 & _ & Hpl).
  rewrite Hv in Hv0. injection Hv0 as <-.
  destruct dealt as [|c0 [|c1 [|??]]]; try done.
  assert (Hc0 : ∃ v0, hand_value [c0] = Ok v0).
  { apply one_card_value. rewrite Hdealt in Hkl.
    apply Forall_cons in Hkl as [? _]. known_cards. }
  destruct Hc0 as (v0 & Hv0).
  destruct (decide (Web.method req = "POST" ∧ Web.action req = Some "hit"))
    as [[Hm Ha]|Hnh].
  - destruct (Web.deck t) as [|c deck' _] eqn:Hdeck using rev_ind;
      [simpl in Hcards; lia|].
    assert (Hkp' : known_ranks (Web.player t ++ [c])).
    { apply Forall_app. split; [done|]. apply Forall_app in Hkd as [_ ?]. done. }
    destruct (hand_value_known _ Hkp') as (v' & Hv' & _).
    rewrite (game_hit req s t c deck' v' Hm Ha Ht Hdef Hdeck Hv').
    apply Forall_app in Hkd as [Hkd _].
    destruct (21 <? v') eqn:E; [apply Z.ltb_lt in E|apply Z.ltb_ge in E].
    + destruct (hand_value_known _ Hkl) as (dv & Hdv & _).
      erewrite render_done by done. do 2 eexists. split; [done|]. split; [|done].
      eexists. split; [done|]. simpl. do 4 (split; [done|]). right. done.
    + erewrite render_playing by done. do 2 eexists. split; [done|]. split; [|done].
      eexists. split; [done|]. simpl. do 4 (split; [done|]). left.
      split; [done|]. split; [done|].
      split; [rewrite !length_app in *; simpl in *; lia|]. eauto.
  - destruct (decide (Web.method req = "POST" ∧ Web.action req = Some "stand"))
      as [[Hm Ha]|Hns].
    + destruct (dealer_turn_stands (Web.deck t) (Web.dealer t) Hkd Hkl)
        as (deck' & dealer' & dv & Hrun & Hkd' & Hkl' & Hdv & _); [lia|].
      assert (Hw : ∃ w, determine_winner (Web.player t) dealer' = Ok w).
      { unfold determine_winner. rewrite Hv, Hdv. simpl. repeat case_match; eauto. }
      destruct Hw as (w & Hw).
      rewrite (game_stand req s t deck' dealer' w v dv Hm Ha Ht Hdef Hrun Hw Hv Hdv).
      do 2 eexists. split; [done|]. split; [|done].
      eexists. split; [done|]. simpl. do 4 (split; [done|]). right.
      split; [done|]. intros v' Hv'. rewrite Hv in Hv'. injection Hv' as <-. lia.
    + rewrite (game_idle req s t) by tauto.
      erewrite render_playing by done. do 2 eexists. split; [done|]. split; [|done].
      eexists. split; [done|]. simpl. do 4 (split; [done|]). left.
      split; [done|]. split; [done|]. split; [done|]. eauto.
Qed.

Lemma determine_winner_Ok player dealer w :
  determine_winner player dealer = Ok w →
  ∃ p d, hand_value player = Ok p ∧ hand_value dealer = Ok d.
Proof.
  unfold determine_winner.
  destruct (hand_value player) as [p|]; [|done].
  destruct (hand_value dealer) as [d|]; [|done]. eauto.
Qed.

(** A request that raises leaves the session in state 'dealer' exactly when
    it was there before or was the Stand of a player's turn. *)
Lemma game_raises_state req s s' e :
  Web.game req s = (s', Err e) →
  (Web.state s' = Some "dealer" ↔
   Web.state s = Some "dealer" ∨
   (Web.method req = "POST" ∧ Web.action req = Some "stand" ∧
    default "playing" (Web.state s) = "playing")).
Proof.
  destruct req as [m a], s as [cs st]. simpl.
  unfold Web.game, Web.player_step, Web.dealer_step, Web.hit, Web.run_dealer,
    Web.set_state, Web.on_table, Web.render.
  unfold gets, modify, lift, raise, mbind, M_bind, result_bind, mret, M_ret,
    result_ret. simpl.
  repeat (case_bool_decide; simpl); repeat (case_match; simpl in *; simplify_eq);
    try (intros [= <- <-]; simpl;
         split; [intros [=] || (intros; auto)
                |intros [?|(? & ? & ?)]; simplify_eq/=; try done]).
  all: try done.
  all: try congruence.
  all: try tauto.
  all: try match goal with
       | H : determine_winner _ _ = Ok _ |- _ =>
           apply determine_winner_Ok in H as (? & ? & ? & ?); congruence
       end.
Qed.

(** C10, as the code has it.  A request to [/game] that is answered never
    leaves 'dealer' as the session's state: it leaves 'playing' or 'done',
    the state the page shows.  A Stand runs the whole dealer's turn and names
    the winner within the request.  [/start] opens a round, and every
    request of a round is answered and leaves a round.  A request that
    raises can leave 'dealer': the handler writes it before the dealer's
    turn, so the Stand of a player's turn that raises (no round in the
    session, the deck running out) leaves it, as does any request that
    raises on a session in state 'dealer', and no other request does. *)
Theorem game_never_leaves_dealer_state :
  (∀ req s s' page,
     known_state s → Web.game req s = (s', Ok page) →
     (Web.state s' = Some "playing" ∨ Web.state s' = Some "done") ∧
     Web.state s' = Some (Web.page_state page)) ∧
  (∀ req s s' page,
     Web.method req = "POST" → Web.action req = Some "stand" →
     default "playing" (Web.state s) = "playing" →
     Web.game req s = (s', Ok page) →
     ∃ t deck' dealer' w,
       Web.cards s = Some t ∧
       Web.dealer_turn (Web.deck t) (Web.dealer t) = ((deck', dealer'), Ok tt) ∧
       determine_winner (Web.player t) dealer' = Ok w ∧
       s' = Web.mkSession (Some (Web.mkTable deck' (Web.player t) dealer'))
                          (Some "done") ∧
       Web.message page = (if bool_decide (w = "player") then "You win!"
                           else "Dealer wins! (Dealer wins ties)")) ∧
  (∀ g s0, ∃ g' s1 dealt, Web.start g s0 = (s1, Ok g') ∧ in_round dealt s1) ∧
  (∀ dealt req s,
     in_round dealt s →
     ∃ s' page, Web.game req s = (s', Ok page) ∧ in_round dealt s' ∧
                (Web.state s' = Some "playing" ∨ Web.state s' = Some "done")) ∧
  (∀ req s s' e,
     Web.game req s = (s', Err e) →
     (Web.state s' = Some "dealer" ↔
      Web.state s = Some "dealer" ∨
      (Web.method req = "POST" ∧ Web.action req = Some "stand" ∧
       default "playing" (Web.state s) = "playing"))).
Proof.
  split; [|split; [|split; [|split; [|exact game_raises_state]]]].
  - intros req s s' page Hs
      (s1 & st1 & msg1 & s2 & st2 & msg2 & t & H1 & H2 & -> & Ht & Hr)%game_inv.
    apply render_inv in Hr as (-> & _). simpl. split; [|done].
    assert (Hst1 : st1 = "playing" ∨ st1 = "dealer" ∨ st1 = "done").
    { apply player_step_inv in H1
        as [(_ & -> & _)|[(_ & _ & _ & _ & -> & _)|
            (_ & _ & _ & ? & ? & ? & ? & _ & _ & _ & _ &
             [(_ & -> & _)|(_ & -> & _)])]]; auto.
      unfold known_state in Hs. rewrite !elem_of_cons, elem_of_nil in Hs.
      destruct Hs as [-> | [-> | [-> | [-> | []]]]]; simpl; auto. }
    apply dealer_step_inv in H2 as [(Hne & _ & -> & _)|(_ & -> & _)]; [|by right].
    destruct Hst1 as [-> | [-> | ->]]; [by left|done|by right].
  - intros req s s' page Hm Ha Hst
      (s1 & st1 & msg1 & s2 & st2 & msg2 & t & H1 & H2 & -> & Ht & Hr)%game_inv.
    rewrite Hst in H1.
    apply player_step_inv in H1
      as [(_ & _ & _ & Hn)|[(_ & _ & _ & -> & -> & ->)|(_ & _ & Hh & _)]];
      [exfalso; apply Hn; auto| |congruence].
    apply dealer_step_inv in H2
      as [(Hne & _)|(_ & -> & t0 & deck' & dealer' & w & Ht0 & Hrun & Hw & -> & ->)];
      [done|].
    apply render_inv in Hr as (_ & Hmsg & _).
    exists t0, deck', dealer', w. simpl in *. by rewrite Hmsg.
  - intros g s0. destruct (start_in_round g s0) as (g' & t & Hstart & _ & Hin). eauto.
  - intros dealt req s Hin.
    destruct (game_in_round dealt req s Hin) as (s' & page & Hg & Hin' & Hst).
    exists s', page. split; [done|]. split; [done|].
    destruct Hin' as (t & _ & _ & _ & _ & _ & [(-> & _)|(-> & _)]); auto.
Qed.

Lemma game_never_leaves_dealer_state_witness :
  ∃ t deck' dealer' w,
    Web.cards playing_session = Some t ∧
    Web.dealer_turn (Web.deck t) (Web.dealer t) = ((deck', dealer'), Ok tt) ∧
    determine_winner (Web.player t) dealer' = Ok w ∧
    (Web.game stand_request playing_session).1 =
      Web.mkSession (Some (Web.mkTable deck' (Web.player t) dealer')) (Some "done") ∧
    Web.message (Web.mkPage "10♠ 7♠" 17 "6♠ 9♠ K♠" 25 "done" "You win!") =
      (if bool_decide (w = "player") then "You win!"
       else "Dealer wins! (Dealer wins ties)").
Proof.
  apply (proj1 (proj2 game_never_leaves_dealer_state) stand_request playing_session).
  - reflexivity.
  - reflexivity.
  - reflexivity.
  - vm_compute. reflexivity.
Defined.

(** A Stand sent to a session that holds no round: the request raises and
    the session is left in state 'dealer'. *)
Lemma stand_without_round_leaves_dealer :
  Web.game stand_request (Web.mkSession None None) =
  (Web.mkSession None (Some "dealer"), Err TypeError).
Proof. by vm_compute. Qed.

(** C5, as the code has it.  A Hit or Stand (any request) on a finished round
    is not rejected: the handler answers with the page of the finished round
    and an empty message, and leaves deck, hands and state as they are.  On a
    session left in state 'dealer' the request is not rejected either, and
    not looked at: the handler runs the dealer's turn and resolves the
    round. *)
Theorem game_ignores_action_when_done :
  (∀ req s t pv dv,
     Web.cards s = Some t → Web.state s = Some "done" →
     hand_value (Web.player t) = Ok pv → hand_value (Web.dealer t) = Ok dv →
     Web.game req s =
     (s, Ok (Web.mkPage (format_hand (Web.player t)) pv
                        (format_hand (Web.dealer t)) dv "done" ""))) ∧
  (∀ req s t deck' dealer' w pv dv,
     Web.cards s = Some t → Web.state s = Some "dealer" →
     Web.dealer_turn (Web.deck t) (Web.dealer t) = ((deck', dealer'), Ok tt) →
     determine_winner (Web.player t) dealer' = Ok w →
     hand_value (Web.player t) = Ok pv → hand_value dealer' = Ok dv →
     Web.game req s =
     (Web.mkSession (Some (Web.mkTable deck' (Web.player t) dealer')) (Some "done"),
      Ok (Web.mkPage (format_hand (Web.player t)) pv (format_hand dealer') dv "done"
            (if bool_decide (w = "player") then "You win!"
             else "Dealer wins! (Dealer wins ties)")))).
Proof. split; [apply game_done|apply game_from_dealer]. Qed.

Lemma game_ignores_action_when_done_witness :
  Web.game hit_request bust_session =
  (bust_session, Ok (Web.mkPage "10♠ 7♠ Q♠" 27 "6♠ 9♠" 15 "done" "")).
Proof.
  exact (proj1 game_ignores_action_when_done hit_request bust_session
           (Web.mkTable (spade <$> ["3"; "5"; "K"]) (spade <$> ["10"; "7"; "Q"])
                        (spade <$> ["6"; "9"]))
           27 15 eq_refl eq_refl eq_refl eq_refl).
Defined.

(** C5 as stated fails.  A Hit on a finished round is answered, not rejected
    with an error; and a Hit on a session in state 'dealer' changes the
    session: the dealer draws and the round is resolved. *)
Lemma hit_outside_player_turn_not_rejected :
  Web.game hit_request bust_session =
    (bust_session, Ok (Web.mkPage "10♠ 7♠ Q♠" 27 "6♠ 9♠" 15 "done" "")) ∧
  Web.game hit_request dealer_session =
    (Web.mkSession
       (Some (Web.mkTable (spade <$> ["3"; "5"])
                          (spade <$> ["10"; "7"])
                          (spade <$> ["6"; "9"; "K"])))
       (Some "done"),
     Ok (Web.mkPage "10♠ 7♠" 17 "6♠ 9♠ K♠" 25 "done" "You win!")).
Proof. split; by vm_compute. Qed.

(** ** Rounds played at the console *)

Lemma play_round_on_bust deck w w' deck' player' dealer' v :
  Console.play_round_on deck w = (w', Ok (deck', player', dealer')) →
  hand_value player' = Ok v → 21 < v →
  ∃ rest d2 d1 p2 p1 v0 w1 dv,
    deck = rest ++ [d2; d1; p2; p1] ∧ dealer' = [d1; d2] ∧
    hand_value [p1; p2] = Ok v0 ∧
    Console.player_turn rest [p1; p2]
      (Console.mkWorld (Console.stdin w)
         (Console.stdout w ++
          [Console.nl +:+ "=== New Round ===";
           "Dealer shows: " +:+ format_card d1 +:+ " and [hidden]";
           Console.your_hand_line [p1; p2] v0])) = (w1, Ok (deck', player')) ∧
    hand_value [d1; d2] = Ok dv ∧
    w' = Console.mkWorld (Console.stdin w1)
           (Console.stdout w1 ++
            [Console.nl +:+ "Dealer wins!";
             "Dealer hand was: " +:+ format_hand [d1; d2] +:+
             " (value: " +:+ str_of_int dv +:+ ")"]).
Proof.
  unfold Console.play_round_on.
  destruct (decide (4 <= length deck)%nat) as [Hlen|Hlen];
    [|unfold_M; rewrite deal_initial_hands_short by lia; done].
  destruct (last_four deck Hlen) as (rest & d2 & d1 & p2 & p1 & ->).
  unfold Console.print. unfold_M. rewrite deal_initial_hands_snoc.
  destruct (hand_value [p1; p2]) as [v0|] eqn:Hv0; [|done].
  rewrite <- !app_assoc. simpl.
  destruct (Console.player_turn rest [p1; p2] _) as [w1 [[deck1 player1]|]] eqn:Hturn;
    [|done].
  destruct (hand_value player1) as [v1|] eqn:Hv1; [|done].
  destruct (21 <? v1) eqn:E; [apply Z.ltb_lt in E|apply Z.ltb_ge in E].
  - destruct (hand_value [d1; d2]) as [dv|] eqn:Hdv; [|done].
    rewrite <- !app_assoc. simpl.
    intros [= <- <- <- <-] _ _. by exists rest, d2, d1, p2, p1, v0, w1, dv.
  - destruct (Console.dealer_turn deck1 [d1; d2] w1) as [w2 [[deck2 dealer2]|]]; [|done].
    destruct (determine_winner player1 dealer2); [|done].
    simpl. destruct (hand_value dealer2); [|done].
    intros [= _ _ <- _] Hv. rewrite Hv1 in Hv. injection Hv as <-. lia.
Qed.

(** The other way round: a player's turn that ends above 21 ends the round. *)
Lemma play_round_on_bust_ends rest d2 d1 p2 p1 w v0 w1 deck' player' v dv :
  hand_value [p1; p2] = Ok v0 →
  Console.player_turn rest [p1; p2]
    (Console.mkWorld (Console.stdin w)
       (Console.stdout w ++
        [Console.nl +:+ "=== New Round ===";
         "Dealer shows: " +:+ format_card d1 +:+ " and [hidden]";
         Console.your_hand_line [p1; p2] v0])) = (w1, Ok (deck', player')) →
  hand_value player' = Ok v → 21 < v →
  hand_value [d1; d2] = Ok dv →
  Console.play_round_on (rest ++ [d2; d1; p2; p1]) w =
  (Console.mkWorld (Console.stdin w1)
     (Console.stdout w1 ++
      [Console.nl +:+ "Dealer wins!";
       "Dealer hand was: " +:+ format_hand [d1; d2] +:+
       " (value: " +:+ str_of_int dv +:+ ")"]),
   Ok (deck', player', [d1; d2])).
Proof.
  intros Hv0 Hturn Hv Hbust Hdv.
  unfold Console.play_round_on, Console.print. unfold_M.
  rewrite deal_initial_hands_snoc, Hv0.
  rewrite <- !app_assoc. simpl. rewrite Hturn. rewrite Hv.
  apply Z.ltb_lt in Hbust. rewrite Hbust. rewrite Hdv.
  by rewrite <- !app_assoc.
Qed.

(** [play_round] is [play_round_on] the shuffled deck. *)
Lemma play_round_from (b : list card * rng) w w' g' r :
  (let '(deck, g') := b in
   r ← Console.play_round_on deck; mret (g', r)) w = (w', Ok (g', r)) →
  Console.play_round_on b.1 w = (w', Ok r).
Proof.
  destruct b as [deck g0]. change ((deck, g0).1) with deck.
  unfold mbind, M_bind, mret, M_ret.
  destruct (Console.play_round_on deck w) as [w0 [r0|]]; [|done].
  by intros [= <- <- <-].
Qed.

Lemma play_round_inv g w w' g' r :
  Console.play_round g w = (w', Ok (g', r)) →
  Console.play_round_on (build_deck true g).1 w = (w', Ok r).
Proof. exact (play_round_from (build_deck true g) w w' g' r). Qed.

(** C6. When the player's hand goes above 21 the round is resolved at once
    in the dealer's favour and the dealer's turn does not run: the dealer
    keeps the two cards dealt and no further card leaves the deck.  On the
    web, the Hit that busts answers 'done' with the message of the bust, and
    in every round a player above 21 means state 'done' and the dealer's two
    cards; at the console, a round whose player ends above 21 has ended right
    after the player's turn with the two lines of the dealer's win, and a
    player's turn that ends above 21 ends the round so. *)
Theorem player_bust_ends_round :
  (∀ req s t c deck' v dv,
     Web.method req = "POST" → Web.action req = Some "hit" →
     Web.cards s = Some t → default "playing" (Web.state s) = "playing" →
     Web.deck t = deck' ++ [c] →
     hand_value (Web.player t ++ [c]) = Ok v → 21 < v →
     hand_value (Web.dealer t) = Ok dv →
     Web.game req s =
     (Web.mkSession
        (Some (Web.mkTable deck' (Web.player t ++ [c]) (Web.dealer t)))
        (Some "done"),
      Ok (Web.mkPage (format_hand (Web.player t ++ [c])) v
                     (format_hand (Web.dealer t)) dv
                     "done" "You busted! Dealer wins."))) ∧
  (∀ dealt req s s' page t' v,
     in_round dealt s → Web.game req s = (s', Ok page) →
     Web.cards s' = Some t' → hand_value (Web.player t') = Ok v → 21 < v →
     Web.state s' = Some "done" ∧ Web.dealer t' = dealt ∧ length dealt = 2%nat) ∧
  (∀ g w w' g' deck' player' dealer' v,
     Console.play_round g w = (w', Ok (g', (deck', player', dealer'))) →
     hand_value player' = Ok v → 21 < v →
     ∃ rest d2 d1 p2 p1 v0 w1 dv,
       (build_deck true g).1 = rest ++ [d2; d1; p2; p1] ∧ dealer' = [d1; d2] ∧
       hand_value [p1; p2] = Ok v0 ∧
       Console.player_turn rest [p1; p2]
         (Console.mkWorld (Console.stdin w)
            (Console.stdout w ++
             [Console.nl +:+ "=== New Round ===";
              "Dealer shows: " +:+ format_card d1 +:+ " and [hidden]";
              Console.your_hand_line [p1; p2] v0])) = (w1, Ok (deck', player')) ∧
       hand_value [d1; d2] = Ok dv ∧
       w' = Console.mkWorld (Console.stdin w1)
              (Console.stdout w1 ++
               [Console.nl +:+ "Dealer wins!";
                "Dealer hand was: " +:+ format_hand [d1; d2] +:+
                " (value: " +:+ str_of_int dv +:+ ")"])) ∧
  (∀ rest d2 d1 p2 p1 w v0 w1 deck' player' v dv,
     hand_value [p1; p2] = Ok v0 →
     Console.player_turn rest [p1; p2]
       (Console.mkWorld (Console.stdin w)
          (Console.stdout w ++
           [Console.nl +:+ "=== New Round ===";
            "Dealer shows: " +:+ format_card d1 +:+ " and [hidden]";
            Console.your_hand_line [p1; p2] v0])) = (w1, Ok (deck', player')) →
     hand_value player' = Ok v → 21 < v →
     hand_value [d1; d2] = Ok dv →
     Console.play_round_on (rest ++ [d2; d1; p2; p1]) w =
     (Console.mkWorld (Console.stdin w1)
        (Console.stdout w1 ++
         [Console.nl +:+ "Dealer wins!";
          "Dealer hand was: " +:+ format_hand [d1; d2] +:+
          " (value: " +:+ str_of_int dv +:+ ")"]),
      Ok (deck', player', [d1; d2]))).
Proof.
  split; [|split; [|split; [|apply play_round_on_bust_ends]]].
  - intros req s t c deck' v dv Hm Ha Ht Hst Hdeck Hv Hbust Hdv.
    rewrite (game_hit req s t c deck' v Hm Ha Ht Hst Hdeck Hv).
    apply Z.ltb_lt in Hbust. rewrite Hbust.
    by erewrite render_done.
  - intros dealt req s s' page t' v Hin Hg Ht' Hv Hbust.
    destruct (game_in_round dealt req s Hin) as (s'' & page'' & Hg' & Hin' & _).
    rewrite Hg in Hg'. injection Hg' as <- <-.
    destruct Hin' as (t & Ht & _ & _ & _ & Hlen & Hcases).
    rewrite Ht' in Ht. injection Ht as <-.
    destruct Hcases as [(_ & _ & _ & v' & Hv' & Hle)|(Hst & Hkeep)].
    + rewrite Hv in Hv'. injection Hv' as <-. lia.
    + split; [done|]. split; [by eapply Hkeep|done].
  - intros g w w' g' deck' player' dealer' v Hplay Hv Hbust.
    apply play_round_inv in Hplay.
    pose proof (play_round_on_bust _ _ _ _ _ _ _ Hplay Hv Hbust) as H. exact H.
Qed.

Lemma player_bust_ends_round_witness :
  Web.game hit_request playing_session =
  (Web.mkSession
     (Some (Web.mkTable (spade <$> ["3"; "5"])
                        (Web.player playing_table ++ [spade "K"])
                        (Web.dealer playing_table)))
     (Some "done"),
   Ok (Web.mkPage (format_hand (Web.player playing_table ++ [spade "K"])) 27
                  (format_hand (Web.dealer playing_table)) 15
                  "done" "You busted! Dealer wins.")).
Proof.
  apply (proj1 player_bust_ends_round hit_request playing_session playing_table
           (spade "K") (spade <$> ["3"; "5"]) 27 15); reflexivity.
Defined.

(** ** Drawing from an empty deck *)

Lemma player_turn_hit_empty hand v line inp out :
  hand_value hand = Ok v →
  lower (strip line) ∈ ["h"; "hit"] →
  Console.player_turn [] hand (Console.mkWorld (line :: inp) out) =
  (Console.mkWorld inp
     (out ++ [Console.nl +:+ Console.your_hand_line hand v; "Hit or Stand? [H/S]: "]),
   Err IndexError).
Proof.
  intros Hv Hhit. unfold Console.player_turn. simpl. rewrite Hv.
  by rewrite bool_decide_eq_true_2.
Qed.

(** C4, as the code has it.  A draw from an empty deck raises Python's
    IndexError, from [list.pop]; the programs have no DeckExhausted and
    nothing in them checks for the condition or catches the exception.  The
    draw that fails takes no card and appends none, but what the same call
    did before stays done.  So fail [pop]; the initial deal on fewer than
    four cards, which has by then taken what cards there were off the deck;
    the player's Hit at the console and on the web, with deck, hands and
    state as they were; and the dealer's draw at a value of at most 16, in
    both programs: a dealer's turn that ends so has drawn the whole deck,
    and on the web the Stand has by then set the session's state to
    'dealer'.  A console round dealt from exactly four cards ends with the
    exception at the first Hit. *)
Theorem empty_deck_raises_IndexError :
  pop (@nil card) = Err IndexError ∧
  pop_card [] = ([], Err IndexError) ∧
  (∀ deck, (length deck < 4)%nat → deal_initial_hands deck = ([], Err IndexError)) ∧
  (∀ hand v line inp out,
     hand_value hand = Ok v →
     lower (strip line) ∈ ["h"; "hit"] →
     Console.player_turn [] hand (Console.mkWorld (line :: inp) out) =
     (Console.mkWorld inp
        (out ++ [Console.nl +:+ Console.your_hand_line hand v;
                 "Hit or Stand? [H/S]: "]),
      Err IndexError)) ∧
  (∀ hand v,
     hand_value hand = Ok v → v <= 16 →
     Web.dealer_turn [] hand = (([], hand), Err IndexError)) ∧
  (∀ deck hand deck' hand',
     Web.dealer_turn deck hand = ((deck', hand'), Err IndexError) →
     deck' = [] ∧ hand' = hand ++ reverse deck ∧
     ∃ v, hand_value hand' = Ok v ∧ v <= 16) ∧
  (∀ hand v w,
     (2 <= length hand)%nat → hand_value hand = Ok v → v <= 16 →
     ∃ w', Console.dealer_turn [] hand w = (w', Err IndexError) ∧
           Console.stdin w' = Console.stdin w) ∧
  (∀ req s t,
     Web.method req = "POST" → Web.action req = Some "hit" →
     default "playing" (Web.state s) = "playing" →
     Web.cards s = Some t → Web.deck t = [] →
     Web.game req s = (s, Err IndexError)) ∧
  (∀ req s t v,
     Web.method req = "POST" → Web.action req = Some "stand" →
     default "playing" (Web.state s) = "playing" →
     Web.cards s = Some t → Web.deck t = [] →
     hand_value (Web.dealer t) = Ok v → v <= 16 →
     Web.game req s = (Web.mkSession (Some t) (Some "dealer"), Err IndexError)) ∧
  (∀ d2 d1 p2 p1 v line inp out,
     hand_value [p1; p2] = Ok v →
     lower (strip line) ∈ ["h"; "hit"] →
     ∃ w', Console.play_round_on [d2; d1; p2; p1]
             (Console.mkWorld (line :: inp) out) = (w', Err IndexError)).
Proof.
  assert (Hweb : ∀ hand v, hand_value hand = Ok v → v <= 16 →
                 Web.dealer_turn [] hand = (([], hand), Err IndexError)).
  { intros hand v Hv Hle. rewrite dealer_turn_unfold, Hv.
    apply Z.leb_le in Hle. by rewrite Hle. }
  split; [done|]. split; [done|]. split; [apply deal_initial_hands_short|].
  split; [apply player_turn_hit_empty|]. split; [done|].
  split; [|split; [|split; [|split]]].
  - intros deck hand deck' hand' Hrun.
    destruct (dealer_turn_run deck hand)
      as (drawn & deck1 & hand1 & r & Hrun' & Hdeck & Hhand & _ & Hend).
    rewrite Hrun in Hrun'. injection Hrun' as <- <- <-.
    destruct Hend as [(? & _)|[(_ & -> & Hv)|(? & _)]]; [done| |done].
    split; [done|]. split; [|done].
    rewrite Hhand, Hdeck. simpl. by rewrite reverse_involutive.
  - intros hand v w Hlen Hv Hle.
    destruct hand as [|c0 [|c1 hand]]; [simpl in Hlen; lia..|].
    unfold Console.dealer_turn, Console.print. unfold_M. rewrite Hv.
    match goal with
    | |- context [Console.dealer_loop ?d ?h ?o] =>
        destruct (dealer_loop_agrees d h o) as (out' & ->)
    end.
    rewrite (Hweb _ _ Hv Hle). simpl. eauto.
  - intros [m a] [cs st] t. simpl. intros -> -> Hst -> Hdeck.
    unfold_game. rewrite Hst. decide_eq. by rewrite Hdeck.
  - intros [m a] [cs st] t v. simpl. intros -> -> Hst -> Hdeck Hv Hle.
    unfold_game. rewrite Hst. decide_eq. rewrite Hdeck, (Hweb _ _ Hv Hle).
    destruct t. simpl in *. by subst.
  - intros d2 d1 p2 p1 v line inp out Hv Hhit.
    unfold Console.play_round_on.
    pose proof (deal_initial_hands_snoc [] d2 d1 p2 p1) as Hdeal.
    simpl in Hdeal. rewrite Hdeal.
    unfold Console.print. unfold_M. rewrite Hv.
    erewrite player_turn_hit_empty by done. eauto.
Qed.

Lemma empty_deck_raises_IndexError_witness :
  Console.player_turn [] (spade <$> ["10"; "6"]) (Console.mkWorld ["h"] []) =
  (Console.mkWorld []
     ([] ++ [Console.nl +:+ Console.your_hand_line (spade <$> ["10"; "6"]) 16;
             "Hit or Stand? [H/S]: "]),
   Err IndexError).
Proof.
  apply (proj1 (proj2 (proj2 (proj2 empty_deck_raises_IndexError)))).
  - reflexivity.
  - apply (bool_decide_unpack _). by vm_compute.
Defined.

(** A Stand on a round whose deck is empty, with the dealer at 15: the
    request raises IndexError, which nothing catches, and the session, in
    state 'playing' before, is left in state 'dealer'. *)
Lemma stand_on_empty_deck_leaves_dealer :
  Web.game stand_request
    (Web.mkSession
       (Some (Web.mkTable [] (spade <$> ["10"; "7"]) (spade <$> ["6"; "9"])))
       (Some "playing")) =
  (Web.mkSession
     (Some (Web.mkTable [] (spade <$> ["10"; "7"]) (spade <$> ["6"; "9"])))
     (Some "dealer"),
   Err IndexError).
Proof. by vm_compute. Qed.

(** ** What every request keeps *)

Section keeps.
Context {S : Type} (R : relation S) `{!PreOrder R}.

Lemma keeps_ret {A} (a : A) : keeps R (mret a : M S A).
Proof. intros s. simpl. reflexivity. Qed.

Lemma keeps_lift {A} (r : result A) : keeps R (lift r : M S A).
Proof. intros s. simpl. reflexivity. Qed.

Lemma keeps_gets {A} (f : S → A) : keeps R (gets f).
Proof. intros s. simpl. reflexivity. Qed.

Lemma keeps_bind {A B} (m : M S A) (k : A → M S B) :
  keeps R m → (∀ a, keeps R (k a)) → keeps R (m ≫= k).
Proof.
  intros Hm Hk s. unfold mbind, M_bind. specialize (Hm s).
  destruct (m s) as [s1 [a|e]]; simpl in *; [|done].
  etrans; [exact Hm|apply Hk].
Qed.

Lemma keeps_if {A} (b : bool) (m1 m2 : M S A) :
  keeps R m1 → keeps R m2 → keeps R (if b then m1 else m2).
Proof. by destruct b. Qed.
End keeps.

#[local] Instance conserved_preorder : PreOrder conserved.
Proof.
  split.
  - intros s. unfold conserved. by destruct (Web.cards s).
  - intros s1 s2 s3. unfold conserved.
    destruct (Web.cards s1), (Web.cards s2), (Web.cards s3); try done.
    intros H12 H23. by rewrite H23.
Qed.

Lemma hit_conserved : keeps conserved Web.hit.
Proof.
  intros [cs st]. unfold Web.hit, conserved. simpl.
  destruct cs as [t|]; simpl; [|done].
  destruct (pop (Web.deck t)) as [[c deck']|e] eqn:Hpop; simpl; [|done].
  apply pop_Ok in Hpop as ->. rewrite <- !app_assoc. simpl.
  apply Permutation_app_head. symmetry. apply Permutation_middle.
Qed.

Lemma set_state_conserved st : keeps conserved (Web.set_state st).
Proof. intros [cs ?]. unfold conserved. simpl. by destruct cs. Qed.

Lemma on_table_conserved {A} (f : Web.Table → result A) :
  keeps conserved (Web.on_table f).
Proof.
  intros [cs ?]. unfold Web.on_table, conserved. simpl.
  destruct cs; simpl; [reflexivity|done].
Qed.

Lemma run_dealer_conserved : keeps conserved Web.run_dealer.
Proof.
  intros [cs st]. unfold Web.run_dealer, conserved. simpl.
  destruct cs as [t|]; simpl; [|done].
  destruct (dealer_turn_run (Web.deck t) (Web.dealer t))
    as (drawn & deck' & hand' & r & -> & Hdeck & -> & _). simpl.
  rewrite Hdeck, <- !app_assoc. apply Permutation_app_head.
  rewrite reverse_Permutation.
  rewrite (Permutation_app_comm drawn). rewrite !app_assoc.
  apply Permutation_app_tail. by rewrite Permutation_app_comm.
Qed.

Lemma game_conserved req : keeps conserved (Web.game req).
Proof.
  unfold Web.game, Web.player_step, Web.dealer_step.
  repeat first
    [ apply keeps_bind; [apply _| |intros ?]
    | apply keeps_if; [apply _| |]
    | apply keeps_ret; apply _
    | apply keeps_gets; apply _
    | apply hit_conserved
    | apply run_dealer_conserved
    | apply set_state_conserved
    | apply on_table_conserved
    | case_match ].
Qed.

(** ** Further properties of the two programs *)

(** X1. The cards of a round are conserved.  [/start] leaves the 52 distinct
    cards of the deck split between the deck and the two hands, and every
    request to [/game], answered or not, leaves deck and hands holding the
    same cards together as before: no card is lost or repeated. *)
Theorem cards_conserved :
  (∀ g s0, ∃ g' t,
     Web.start g s0 = (Web.mkSession (Some t) (Some "playing"), Ok g') ∧
     Web.deck t ++ Web.player t ++ Web.dealer t ≡ₚ (build_deck false g).1 ∧
     NoDup (Web.deck t ++ Web.player t ++ Web.dealer t)) ∧
  (∀ req s, conserved s (Web.game req s).1).
Proof.
  split; [|intros req s; apply game_conserved].
  intros g s0. destruct (start_in_round g s0) as (g' & t & Hstart & Hdeal & _).
  exists g', t. split; [done|].
  assert (Hperm : (build_deck true g).1 ≡ₚ (build_deck false g).1).
  { unfold build_deck, random_shuffle. apply shuffle_from_Permutation. }
  assert (Hall : Web.deck t ++ Web.player t ++ Web.dealer t ≡ₚ (build_deck true g).1).
  { destruct (last_four (build_deck true g).1) as (rest & d2 & d1 & p2 & p1 & Heq);
      [rewrite shuffled_deck_length; lia|].
    rewrite Heq in Hdeal |- *. rewrite deal_initial_hands_snoc in Hdeal.
    injection Hdeal as <- <- <-. apply Permutation_app_head. simpl.
    change [d2; d1; p2; p1] with (reverse [p1; p2; d1; d2]).
    by rewrite reverse_Permutation. }
  split; [by rewrite Hall|].
  rewrite Hall, Hperm. apply (bool_decide_unpack _). by vm_compute.
Qed.

(** X2. The console's [dealer_turn] on a hand of fewer than two cards raises
    IndexError at [hand[1]], before it prints or draws anything. *)
Theorem console_dealer_needs_hole_card deck hand w :
  (length hand < 2)%nat → Console.dealer_turn deck hand w = (w, Err IndexError).
Proof.
  intros Hlen. destruct hand as [|c0 [|c1 hand]]; [done..|]. simpl in Hlen. lia.
Qed.

Lemma console_dealer_needs_hole_card_witness :
  Console.dealer_turn [spade "K"] [spade "5"] (Console.mkWorld [] []) =
  (Console.mkWorld [] [], Err IndexError).
Proof.
  apply (console_dealer_needs_hole_card [spade "K"] [spade "5"]). simpl. lia.
Defined.

(** X3. A request to [/game] on a session that holds no round (before
    [/start], after [/reset]) is never answered: it raises AttributeError or
    TypeError and the session still holds no lists.  A Hit leaves the session
    as it was; a Stand has by then written 'dealer' to its state. *)
Theorem game_without_round :
  (∀ req s, Web.cards s = None →
     ∃ s' e, Web.game req s = (s', Err e) ∧ Web.cards s' = None ∧
             (e = AttributeError ∨ e = TypeError)) ∧
  Web.game hit_request (Web.mkSession None None) =
    (Web.mkSession None None, Err AttributeError) ∧
  Web.game stand_request (Web.mkSession None None) =
    (Web.mkSession None (Some "dealer"), Err TypeError).
Proof.
  split; [|by split].
  intros [m a] [cs st]. simpl. intros ->. unfold_game.
  repeat (case_bool_decide; simpl); eauto 10.
Qed.

Lemma game_without_round_witness :
  ∃ s' e, Web.game (Web.mkRequest "GET" None) (Web.mkSession None None) = (s', Err e) ∧
          Web.cards s' = None ∧ (e = AttributeError ∨ e = TypeError).
Proof.
  apply (proj1 game_without_round (Web.mkRequest "GET" None) (Web.mkSession None None)).
  reflexivity.
Defined.

(** ** The player's turn at the console *)

Lemma player_loop_run inp out deck hand :
  ∃ used rest drawn deck' hand' out' r,
    Console.player_loop inp out deck hand = (Console.mkWorld rest out', r) ∧
    inp = used ++ rest ∧
    deck = deck' ++ reverse drawn ∧ hand' = hand ++ drawn ∧
    (length drawn <= length used)%nat ∧
    (∀ d1 d2, drawn = d1 ++ d2 → d1 ≠ [] → d2 ≠ [] →
              ∃ v, hand_value (hand ++ d1) = Ok v ∧ v <= 21) ∧
    player_end used rest drawn deck' hand' r.
Proof.
  revert out deck hand. induction inp as [|line inp IH]; intros out deck hand;
    simpl; destruct (hand_value hand) as [v|e] eqn:Hv.
  2, 4: apply hand_value_error in Hv as Hve; subst e;
        exists []; eexists; exists [], deck, hand; do 2 eexists;
        (split; [reflexivity|]); rewrite !app_nil_r;
        repeat (split; [try done; by intros [|??] [|??]|]);
        do 3 right; done.
  - exists [], [], [], deck, hand. do 2 eexists. rewrite !app_nil_r.
    repeat (split; [try done; by intros [|??] [|??]|]).
    right; left. split; [done|]. split; [done|]. exists v. done.
  - case_bool_decide as Hhit.
    + destruct deck as [|c deck _] using rev_ind.
      * exists [line], inp, [], [], hand. do 2 eexists. rewrite !app_nil_r.
        repeat (split; [try done; try (simpl; lia); by intros [|??] [|??]|]).
        do 2 right; left. split; [done|]. split; [done|].
        split; [by exists [], line|]. exists v. done.
      * rewrite pop_snoc.
        destruct (hand_value (hand ++ [c])) as [v1|e1] eqn:Hv1.
        -- destruct (21 <? v1) eqn:E; [apply Z.ltb_lt in E|apply Z.ltb_ge in E].
           ++ exists [line], inp, [c], deck, (hand ++ [c]). do 2 eexists.
              split; [done|]. split; [done|]. split; [done|]. split; [done|].
              split; [simpl; lia|].
              split; [intros [|? [|??]] [|??]; try done; by intros [= <-]|].
              left. split; [done|]. right. exists [], line.
              split; [done|]. split; [done|]. split; [done|]. eauto.
           ++ match goal with
              | |- context [Console.player_loop inp ?o ?d ?h] =>
                  destruct (IH o d h)
                    as (used & rest & drawn & deck' & hand' & out' & r & Hrun & -> & -> &
                        -> & Hlen & Hpre & Hend)
              end.
              exists (line :: used), rest, (c :: drawn), deck', ((hand ++ [c]) ++ drawn).
              exists out', r. split; [exact Hrun|]. split; [done|].
              split; [by rewrite reverse_cons, app_assoc|].
              split; [by rewrite <- app_assoc|]. split; [simpl; lia|].
              assert (Hle : ∀ v', hand_value ((hand ++ [c]) ++ drawn) = Ok v' →
                                  (drawn ≠ [] → v' <= 21) → v' <= 21).
              { intros v' Hv' Himp. destruct drawn as [|??]; [|by apply Himp].
                rewrite app_nil_r, Hv1 in Hv'. injection Hv' as <-. done. }
              split.
              { intros [|c' d1] d2 Heq Hne1 Hne2; [done|].
                simpl in Heq. injection Heq as <- ->.
                destruct d1 as [|c2 d1]; [eauto|].
                destruct (Hpre (c2 :: d1) d2 eq_refl) as (v' & Hv' & ?); try done.
                exists v'. by rewrite <- app_assoc in Hv'. }
              destruct Hend as [(-> & [(u & l & -> & Hs & v' & Hv' & Himp)|
                                       (u & l & -> & Hh & Hne & Hb)])|
                                [(-> & -> & v' & Hv' & Himp)|
                                 [(-> & -> & (u & l & -> & Hh) & v' & Hv' & Himp)|
                                  (-> & Herr)]]].
              ** left. split; [done|]. left. exists (line :: u), l.
                 split; [done|]. split; [done|]. exists v'. split; [done|]. eauto.
              ** left. split; [done|]. right. exists (line :: u), l.
                 split; [done|]. split; [done|]. split; [done|]. done.
              ** right; left. split; [done|]. split; [done|]. exists v'. eauto.
              ** do 2 right; left. split; [done|]. split; [done|].
                 split; [by exists (line :: u), l|]. exists v'. eauto.
              ** do 3 right. done.
        -- apply hand_value_error in Hv1 as Hve. subst e1.
           exists [line], inp, [c], deck, (hand ++ [c]). do 2 eexists.
           split; [done|]. split; [done|]. split; [done|]. split; [done|].
           split; [simpl; lia|].
           split; [intros [|? [|??]] [|??]; try done; by intros [= <-]|].
           do 3 right. done.
    + case_bool_decide as Hstand.
      * exists [line], inp, [], deck, hand. do 2 eexists. rewrite !app_nil_r.
        repeat (split; [try done; try (simpl; lia); by intros [|??] [|??]|]).
        left. split; [done|]. left. exists [], line. split; [done|]. split; [done|].
        exists v. done.
      * match goal with
        | |- context [Console.player_loop inp ?o ?d ?h] =>
            destruct (IH o d h)
              as (used & rest & drawn & deck' & hand' & out' & r & Hrun & -> & -> &
                  -> & Hlen & Hpre & Hend)
        end.
        exists (line :: used), rest, drawn, deck', (hand ++ drawn), out', r.
        split; [exact Hrun|]. split; [done|]. split; [done|]. split; [done|].
        split; [simpl; lia|]. split; [done|].
        destruct Hend as [(-> & [(u & l & -> & Hs & Hx)|(u & l & -> & Hh & Hx)])|
                          [(-> & -> & Hx)|
                           [(-> & -> & (u & l & -> & Hh) & Hx)|(-> & Herr)]]].
        -- left. split; [done|]. left. by exists (line :: u), l.
        -- left. split; [done|]. right. by exists (line :: u), l.
        -- right; left. done.
        -- do 2 right; left. split; [done|]. split; [done|].
           split; [by exists (line :: u), l|done].
        -- do 3 right. done.
Qed.

(** From a hand at 21 or less, with cards of the deck only and 22 of them in
    hand and deck together, the deck cannot run out during the player's turn. *)
Lemma player_end_safe used rest deck hand drawn deck' hand' r :
  deck = deck' ++ reverse drawn → hand' = hand ++ drawn →
  player_end used rest drawn deck' hand' r →
  known_ranks deck → known_ranks hand →
  (∀ v, hand_value hand = Ok v → v <= 21) →
  (22 <= length deck + length hand)%nat →
  r = Ok (deck', hand') ∨ r = Err EOFError.
Proof.
  intros Hdeck Hhand Hend Hkd Hkh Hle Hcards.
  destruct (dealer_turn_hand_known _ _ _ _ _ Hkd Hkh Hdeck Hhand)
    as (_ & _ & v' & Hv' & Hge).
  destruct Hend as [(-> & _)|[(-> & _)|[(_ & -> & _ & v & Hv & Himp)|(_ & Herr)]]];
    [by left|by right| |congruence].
  exfalso. rewrite Hv in Hv'. injection Hv' as <-.
  assert (v <= 21).
  { destruct drawn as [|c drawn]; [|by apply Himp].
    rewrite app_nil_r in Hhand. subst hand'. by apply Hle. }
  rewrite Hdeck, Hhand, !length_app, length_reverse in *. simpl in *. lia.
Qed.


(** ** A whole round at the console *)

(** The console's dealer, given the hole card and enough cards of the deck:
    the web's loop with lines printed, ending at 17 or more. *)
Lemma console_dealer_turn_stands deck hand w :
  (2 <= length hand)%nat → known_ranks deck → known_ranks hand →
  (17 <= length deck + length hand)%nat →
  ∃ drawn deck' hand' v out',
    Console.dealer_turn deck hand w =
      (Console.mkWorld (Console.stdin w) out', Ok (deck', hand')) ∧
    Web.dealer_turn deck hand = ((deck', hand'), Ok tt) ∧
    deck = deck' ++ reverse drawn ∧ hand' = hand ++ drawn ∧
    hand_value hand' = Ok v ∧ 17 <= v ∧
    last out' = Some (if 21 <? v then "Dealer busts!" else "Dealer stands.").
Proof.
  intros Hlen Hd Hh Hcards.
  destruct (dealer_turn_run deck hand)
    as (drawn & deck' & hand' & r & Hrun & Hdeck & Hhand & _ & _).
  destruct (dealer_turn_stands deck hand Hd Hh Hcards)
    as (deck1 & hand1 & v & Hrun' & _ & _ & Hv & Hge).
  rewrite Hrun in Hrun'. injection Hrun' as <- <- ->.
  destruct (hand_value_known _ Hh) as (v0 & Hv0 & _).
  destruct hand as [|c0 [|c1 hand]]; [simpl in Hlen; lia..|].
  unfold Console.dealer_turn, mbind, M_bind, lift, Console.print, modify. simpl.
  rewrite Hv0. simpl.
  match goal with
  | |- context [Console.dealer_loop ?d ?h ?o] =>
      destruct (dealer_loop_agrees d h o) as (out' & ->)
  end.
  rewrite Hrun. simpl. rewrite Hv. simpl.
  exists drawn, deck', hand', v. eexists. split; [reflexivity|].
  do 5 (split; [done|]). by rewrite last_snoc.
Qed.

(** A round on a deck of 38 cards of known rank or more: it raises EOFError
    with the input used up, or returns with the cards conserved, at least one
    line read and the verdict of [round_end]. *)
Lemma play_round_on_run deck w :
  known_ranks deck → (38 <= length deck)%nat →
  ∃ w' r, Console.play_round_on deck w = (w', r) ∧
    ((r = Err EOFError ∧ Console.stdin w' = []) ∨
     ∃ deck' player' dealer',
       r = Ok (deck', player', dealer') ∧
       deck' ++ player' ++ dealer' ≡ₚ deck ∧
       (∃ used, Console.stdin w = used ++ Console.stdin w' ∧ used ≠ []) ∧
       round_end player' dealer' (Console.stdout w')).
Proof.
  intros Hk Hlen.
  destruct (last_four deck) as (rest & d2 & d1 & p2 & p1 & ->); [lia|].
  apply Forall_app in Hk as [Hkr Hk4].
  assert (Hkp : known_ranks [p1; p2]).
  { apply Forall_cons in Hk4 as [? Hk4]. apply Forall_cons in Hk4 as [? Hk4].
    apply Forall_cons in Hk4 as [? Hk4]. apply Forall_cons in Hk4 as [? _].
    by known_cards. }
  assert (Hkd : known_ranks [d1; d2]).
  { apply Forall_cons in Hk4 as [? Hk4]. apply Forall_cons in Hk4 as [? Hk4].
    by known_cards. }
  rewrite length_app in Hlen. simpl in Hlen.
  destruct (two_cards_at_most_21 p1 p2 Hkp) as (v0 & Hv0 & Hle0).
  destruct (two_cards_at_most_21 d1 d2 Hkd) as (dv0 & Hdv0 & _).
  unfold Console.play_round_on, Console.print. unfold_M.
  rewrite deal_initial_hands_snoc, Hv0. rewrite <- !app_assoc. simpl.
  unfold Console.player_turn. simpl.
  match goal with
  | |- context [Console.player_loop ?i ?o ?d ?h] =>
      destruct (player_loop_run i o d h)
        as (used & inp' & drawn & deck1 & player1 & out1 & r & -> & Hin & Hdeck &
            Hhand & Hdrawn & _ & Hend)
  end.
  destruct (dealer_turn_hand_known _ _ _ _ _ Hkr Hkp Hdeck Hhand)
    as (Hkd1 & Hkp1 & pv & Hpv & Hpl).
  assert (Hsafe : r = Ok (deck1, player1) ∨ r = Err EOFError).
  { eapply player_end_safe; try done.
    - intros v. rewrite Hv0. by intros [= <-].
    - simpl. lia. }
  destruct Hsafe as [-> | ->].
  2: { destruct Hend as [(? & _)|[(_ & -> & _)|[(? & _)|(? & _)]]]; try done.
       do 2 eexists. split; [reflexivity|]. by left. }
  assert (Hread : ∃ used, Console.stdin w = used ++ inp' ∧ used ≠ []).
  { exists used. split; [done|].
    destruct Hend as [(_ & [(u & l & -> & _)|(u & l & -> & _)])|
                      [(? & _)|[(? & _)|(? & _)]]]; try done;
      by destruct u. }
  assert (Hperm : deck1 ++ player1 ++ [d1; d2] ≡ₚ rest ++ [d2; d1; p2; p1]).
  { rewrite Hdeck, Hhand, <- !app_assoc. apply Permutation_app_head.
    rewrite reverse_Permutation.
    change [d2; d1; p2; p1] with (reverse [p1; p2; d1; d2]).
    rewrite reverse_Permutation.
    change [p1; p2; d1; d2] with ([p1; p2] ++ [d1; d2]).
    apply Permutation_app_swap_app. }
  simpl. rewrite Hpv. simpl.
  destruct (21 <? pv) eqn:E; [apply Z.ltb_lt in E|apply Z.ltb_ge in E]; simpl.
  - rewrite Hdv0. simpl. do 2 eexists. split; [reflexivity|]. right.
    exists deck1, player1, [d1; d2]. do 3 (split; [done|]).
    exists pv, dv0. do 2 (split; [done|]). left. do 2 (split; [done|]).
    simpl. by rewrite last_snoc.
  - match goal with
    | |- context [Console.dealer_turn ?d ?h ?w0] =>
        destruct (console_dealer_turn_stands d h w0)
          as (ddrawn & deck2 & dealer2 & dv & out2 & -> & _ & Hdeck2 & Hhand2 &
              Hdv & Hge & _)
    end; [simpl; lia|done|done| |].
    { assert (Z.of_nat (length player1) <= 21) by lia.
      rewrite Hdeck, Hhand, !length_app, length_reverse in *. simpl in *. lia. }
    simpl. rewrite (determine_winner_values _ _ _ _ Hpv Hdv). simpl.
    rewrite Hdv. simpl.
    do 2 eexists. split; [reflexivity|]. right.
    exists deck2, player1, dealer2. split; [done|].
    split.
    { rewrite <- Hperm, Hdeck2, Hhand2, <- !app_assoc.
      apply Permutation_app_head. rewrite reverse_Permutation.
      rewrite (Permutation_app_comm ddrawn). by rewrite <- app_assoc. }
    split; [done|].
    exists pv, dv. do 2 (split; [done|]). right. do 2 (split; [done|]).
    simpl. rewrite last_snoc. f_equal.
    apply Z.ltb_ge in E. rewrite E.
    destruct (21 <? dv) eqn:E1; [apply Z.ltb_lt in E1|apply Z.ltb_ge in E1].
    + rewrite (bool_decide_eq_true_2 (21 < dv ∨ dv < pv)) by auto. by decide_eq.
    + destruct (dv <? pv) eqn:E2; [apply Z.ltb_lt in E2|apply Z.ltb_ge in E2].
      * rewrite (bool_decide_eq_true_2 (21 < dv ∨ dv < pv)) by auto. by decide_eq.
      * rewrite (bool_decide_eq_false_2 (21 < dv ∨ dv < pv)) by lia. by decide_eq.
Qed.

(** [play_round] is [play_round_on] the shuffled deck, with the random source
    as the shuffle leaves it. *)
Lemma play_round_of (b : list card * rng) w :
  (let '(deck, g') := b in
   r ← Console.play_round_on deck; mret (g', r)) w =
  ((Console.play_round_on b.1 w).1,
   match (Console.play_round_on b.1 w).2 with
   | Ok r => Ok (b.2, r)
   | Err e => Err e
   end).
Proof.
  destruct b as [deck g0]. simpl. unfold mbind, M_bind, mret, M_ret.
  by destruct (Console.play_round_on deck w) as [w0 [r0|]].
Qed.

Lemma play_round_run g w :
  ∃ w' r, Console.play_round g w = (w', r) ∧
    ((r = Err EOFError ∧ Console.stdin w' = []) ∨
     ∃ deck' player' dealer',
       r = Ok ((build_deck true g).2, (deck', player', dealer')) ∧
       deck' ++ player' ++ dealer' ≡ₚ (build_deck false g).1 ∧
       (∃ used, Console.stdin w = used ++ Console.stdin w' ∧ used ≠ []) ∧
       round_end player' dealer' (Console.stdout w')).
Proof.
  pose proof (play_round_of (build_deck true g) w) as Heq.
  destruct (play_round_on_run (build_deck true g).1 w)
    as (w' & r & Hrun & Hend);
    [apply shuffled_deck_known|rewrite shuffled_deck_length; lia|].
  rewrite Hrun in Heq.
  assert (Hperm : (build_deck true g).1 ≡ₚ (build_deck false g).1).
  { unfold build_deck, random_shuffle. apply shuffle_from_Permutation. }
  destruct Hend as [(-> & Hin)|(deck' & player' & dealer' & -> & Hp & Hl & He)].
  - exists w', (Err EOFError). split; [exact Heq|]. by left.
  - exists w', (Ok ((build_deck true g).2, (deck', player', dealer'))).
    split; [exact Heq|]. right. exists deck', player', dealer'.
    split; [done|]. split; [by rewrite Hp|]. done.
Qed.

(** The loop of [main] with more turns allowed than lines are left: the answer
    does not depend on how many, and it is not that of a loop cut short.  The
    loop raises EOFError with the input used up, or returns after an answer
    that is not a yes, with the farewell as the last line. *)
Lemma main_loop_enough bound g w :
  (length (Console.stdin w) < bound)%nat →
  ∃ w' r,
    (∀ bound', (length (Console.stdin w) < bound')%nat →
               Console.main_loop bound' g w = (w', r)) ∧
    ((r = Err EOFError ∧ Console.stdin w' = []) ∨
     ∃ g' used line,
       r = Ok (Some g') ∧
       Console.stdin w = used ++ line :: Console.stdin w' ∧ used ≠ [] ∧
       ¬ yes_answer line ∧
       last (Console.stdout w') = Some "Thanks for playing!").
Proof.
  revert g w. induction bound as [|bound IH]; intros g w Hlen; [lia|].
  destruct (play_round_run g w) as (w1 & r1 & Hround & Hend).
  destruct Hend as [(-> & Hin)|(deck' & player' & dealer' & -> & _ & Hl & _)].
  { exists w1, (Err EOFError). split; [|by left].
    intros [|bound'] ?; [lia|]. simpl. unfold mbind, M_bind. by rewrite Hround. }
  destruct w1 as [inp1 out1]. destruct Hl as (used & Hused & Hne). simpl in Hused.
  destruct inp1 as [|line inp1].
  { eexists (Console.mkWorld [] _), (Err EOFError). split; [|by left].
    intros [|bound'] ?; [lia|]. simpl. unfold mbind, M_bind. rewrite Hround.
    reflexivity. }
  assert (Hlen1 : length (Console.stdin w) = (length used + S (length inp1))%nat).
  { by rewrite Hused, length_app. }
  destruct (decide (yes_answer line)) as [Hyes|Hno].
  - destruct (IH (build_deck true g).2
                 (Console.mkWorld inp1 (out1 ++ [Console.nl +:+ "Play again? [Y/N]: "])))
      as (w' & r & Hrun & Hend); [simpl; lia|].
    exists w', r. split.
    + intros [|bound'] ?; [lia|]. simpl. unfold mbind, M_bind. rewrite Hround.
      simpl. unfold Console.input. simpl.
      rewrite (bool_decide_eq_true_2 _ Hyes). apply Hrun. simpl. lia.
    + destruct Hend as [?|(g' & used' & line' & -> & Hin' & _ & Hno' & Hlast)];
        [by left|right].
      simpl in Hin'. exists g', (used ++ line :: used'), line'.
      split; [done|]. split; [by rewrite Hused, Hin', <- app_assoc|].
      split; [by destruct used|]. done.
  - eexists (Console.mkWorld inp1 _), _. split.
    + intros [|bound'] ?; [lia|]. simpl. unfold mbind, M_bind. rewrite Hround.
      simpl. unfold Console.input. simpl.
      rewrite (bool_decide_eq_false_2 _ Hno). reflexivity.
    + right. exists (build_deck true g).2, used, line.
      split; [done|]. split; [done|]. split; [done|]. split; [done|].
      simpl. by rewrite last_snoc.
Qed.

(** X6. A round at the console with a freshly shuffled deck, whatever the
    random source and the input: the deck never runs out and no card is
    without a value, so the round raises nothing but EOFError, at the end of
    the input; otherwise it returns having read at least one line, with the
    52 cards of the deck split between the deck and the two hands, and its
    last line is the verdict: the dealer's two cards shown when the player is
    above 21; else, with the dealer at 17 or more, 'You win!' when the dealer
    is above 21 or behind the player and 'Dealer wins! (Dealer wins ties)'
    otherwise.  'Push (tie).' is never the verdict. *)
Theorem play_round_outcome g w :
  ∃ w' r, Console.play_round g w = (w', r) ∧
    ((r = Err EOFError ∧ Console.stdin w' = []) ∨
     ∃ deck' player' dealer',
       r = Ok ((build_deck true g).2, (deck', player', dealer')) ∧
       deck' ++ player' ++ dealer' ≡ₚ (build_deck false g).1 ∧
       (∃ used, Console.stdin w = used ++ Console.stdin w' ∧ used ≠ []) ∧
       round_end player' dealer' (Console.stdout w')).
Proof. apply play_round_run. Qed.

(** X7. [main], whatever the random source and the input: it plays rounds
    until an answer to 'Play again?' is not a yes, and returns with
    'Thanks for playing!' as its last line, the lines after that answer left
    unread; or the input ends first and it raises EOFError.  It raises
    nothing else.  Every turn of its loop reads a line, so the loop bounded
    by any number above the number of lines behaves the same, and is never
    cut short. *)
Theorem main_outcome g w :
  ∃ w' r,
    Console.main g w = (w', r) ∧
    (∀ bound, (length (Console.stdin w) < bound)%nat →
       (Console.print "Welcome to Blackjack! (Dealer wins ties)";;
        Console.main_loop bound g) w = (w', r)) ∧
    ((r = Err EOFError ∧ Console.stdin w' = []) ∨
     ∃ g' used line,
       r = Ok (Some g') ∧
       Console.stdin w = used ++ line :: Console.stdin w' ∧ used ≠ [] ∧
       ¬ yes_answer line ∧
       last (Console.stdout w') = Some "Thanks for playing!").
Proof.
  destruct (main_loop_enough (S (length (Console.stdin w))) g
              (Console.mkWorld (Console.stdin w)
                 (Console.stdout w ++ ["Welcome to Blackjack! (Dealer wins ties)"])))
    as (w' & r & Hrun & Hend); [simpl; lia|].
  exists w', r. split; [|split; [|exact Hend]].
  - exact (Hrun (S (length (Console.stdin w))) (Nat.lt_succ_diag_r _)).
  - intros bound Hb. exact (Hrun bound Hb).
Qed.

(** ** What is shown for a hand *)

Lemma append_assoc (a b c : string) : (a +:+ b) +:+ c = a +:+ b +:+ c.
Proof.
  induction a as [|x a IH]; [done|].
  change (String x ((a +:+ b) +:+ c) = String x (a +:+ b +:+ c)). by rewrite IH.
Qed.

Lemma append_nil_r (a : string) : a +:+ "" = a.
Proof.
  induction a as [|x a IH]; [done|].
  change (String x (a +:+ "") = String x a). by rewrite IH.
Qed.

(** The text of a card of the deck is a prefix of no other card's text. *)
Lemma format_card_prefix_free c1 c2 r1 r2 :
  standard [c1] → standard [c2] →
  format_card c1 +:+ r1 = format_card c2 +:+ r2 → c1 = c2 ∧ r1 = r2.
Proof.
  destruct c1 as [k1 s1], c2 as [k2 s2].
  intros [[Hk1 Hs1] _]%Forall_cons [[Hk2 Hs2] _]%Forall_cons. simpl in *.
  revert Hk1 Hk2 Hs1 Hs2. unfold RANKS, SUITS.
  rewrite !elem_of_cons, !elem_of_nil. intros Hk1 Hk2 Hs1 Hs2.
  assert (Hrank : ∀ x1 x2, k1 +:+ x1 = k2 +:+ x2 → k1 = k2 ∧ x1 = x2).
  { intros x1 x2.
    repeat destruct Hk1 as [-> | Hk1]; try done;
      repeat destruct Hk2 as [-> | Hk2]; try done;
      simpl; intros [=]; by subst. }
  assert (Hsuit : ∀ x1 x2, s1 +:+ x1 = s2 +:+ x2 → s1 = s2 ∧ x1 = x2).
  { intros x1 x2.
    repeat destruct Hs1 as [-> | Hs1]; try done;
      repeat destruct Hs2 as [-> | Hs2]; try done;
      simpl; intros [=]; by subst. }
  unfold format_card. rewrite !append_assoc. intros [-> [-> ->]%Hsuit]%Hrank. done.
Qed.

Lemma format_hand_cons c hand :
  format_hand (c :: hand) =
  format_card c +:+ match hand with [] => "" | _ => " " +:+ format_hand hand end.
Proof.
  unfold format_hand. destruct hand as [|c' hand]; simpl; [|done].
  by rewrite append_nil_r.
Qed.

(** X8. What is shown for a hand tells the hand: two hands of cards of the
    deck with the same text are the same cards in the same order. *)
Theorem format_hand_inj hand1 hand2 :
  standard hand1 → standard hand2 →
  format_hand hand1 = format_hand hand2 → hand1 = hand2.
Proof.
  revert hand2. induction hand1 as [|c1 hand1 IH]; intros [|c2 hand2] H1 H2.
  - done.
  - rewrite format_hand_cons. destruct c2 as [k s].
    apply Forall_cons in H2 as [[Hk _] _]. simpl in Hk. revert Hk.
    unfold RANKS. rewrite !elem_of_cons, !elem_of_nil. intros Hk.
    repeat destruct Hk as [-> | Hk]; done.
  - rewrite format_hand_cons. destruct c1 as [k s].
    apply Forall_cons in H1 as [[Hk _] _]. simpl in Hk. revert Hk.
    unfold RANKS. rewrite !elem_of_cons, !elem_of_nil. intros Hk.
    repeat destruct Hk as [-> | Hk]; done.
  - rewrite !format_hand_cons.
    apply Forall_cons in H1 as [Hc1 H1]. apply Forall_cons in H2 as [Hc2 H2].
    intros [-> Hrest]%format_card_prefix_free;
      [|by apply Forall_singleton..].
    f_equal. destruct hand1 as [|c1 hand1], hand2 as [|c2' hand2]; try done.
    injection Hrest as Hrest. by apply IH.
Qed.

Lemma format_hand_inj_witness :
  [spade "10"; spade "A"] = [("10", "♠"); ("A", "♠")].
Proof.
  apply (format_hand_inj [spade "10"; spade "A"] [("10", "♠"); ("A", "♠")]).
  - apply (bool_decide_unpack _). by vm_compute.
  - apply (bool_decide_unpack _). by vm_compute.
  - reflexivity.
Defined.

(** ** What a page shows *)

Lemma render_shows st msg t page :
  Web.render st msg t = Ok page →
  Web.page_state page = st ∧ Web.message page = msg ∧ shows page t.
Proof.
  unfold Web.render, shows. unfold_M.
  destruct (hand_value (Web.player t)) as [pv|]; [|done].
  case_bool_decide as Hst.
  - destruct (Web.dealer t) as [|up rest]; [done|]. simpl.
    destruct (hand_value [up]) as [dv|] eqn:Hdv; [|done].
    intros [= <-]. simpl. rewrite bool_decide_eq_true_2 by done.
    do 4 (split; [done|]). by exists up, rest.
  - destruct (hand_value (Web.dealer t)) as [dv|] eqn:Hdv; [|done].
    intros [= <-]. simpl. by rewrite bool_decide_eq_false_2 by done.
Qed.

(** X9. Every page that [/game] answers shows the round as the session holds
    it after the request: the state, the player's hand and its value, and of
    the dealer the first card alone with its value during the player's turn,
    the whole hand with its value afterwards.  Its message agrees with the
    values on it: the bust is announced above 21 only, a winner only with the
    dealer at 17 or more, the player when at 21 or less with the dealer above
    21 or behind and the dealer otherwise, and only on a page of a finished
    round. *)
Theorem page_shows_session req s s' page :
  Web.game req s = (s', Ok page) →
  ∃ t', Web.cards s' = Some t' ∧ Web.state s' = Some (Web.page_state page) ∧
        shows page t' ∧ verdict page.
Proof.
  intros (s1 & st1 & msg1 & s2 & st2 & msg2 & t & Hp & Hd & -> & Ht & Hr)%game_inv.
  apply render_shows in Hr as (Hst & Hmsg & Hshow).
  exists t. simpl. split; [done|]. split; [by rewrite Hst|]. split; [done|].
  unfold verdict. rewrite Hst, Hmsg.
  destruct Hshow as (_ & Hpv & Hdealer).
  apply dealer_step_inv in Hd
    as [(Hnd & -> & -> & ->)|
        (-> & -> & t1 & deck' & dealer' & w & Ht1 & Hturn & Hw & -> & ->)].
  - apply player_step_inv in Hp
      as [(_ & _ & -> & _)|
          [(_ & _ & _ & _ & -> & _)|
           (_ & _ & _ & t0 & c & deck' & v & _ & _ & -> & Hv & Hcase)]];
      [by left|done|].
    simpl in Ht. injection Ht as <-. simpl in Hpv.
    rewrite Hv in Hpv. injection Hpv as ->.
    destruct Hcase as [(Hb & -> & ->)|(_ & _ & ->)]; [|by left].
    right. split; [done|]. by left.
  - simpl in Ht. injection Ht as <-. simpl in Hpv.
    rewrite Hst in Hdealer. rewrite bool_decide_eq_false_2 in Hdealer by done.
    destruct Hdealer as (_ & Hdv). simpl in Hdv.
    destruct (dealer_turn_run (Web.deck t1) (Web.dealer t1))
      as (drawn & deck2 & dealer2 & r & Hrun & _ & _ & _ & Hend).
    rewrite Hturn in Hrun. injection Hrun as <- <- <-.
    destruct Hend as [(_ & v & Hv & Hge)|[(? & _)|(? & _)]]; [|done..].
    rewrite Hdv in Hv. injection Hv as <-.
    rewrite (determine_winner_values _ _ _ _ Hpv Hdv) in Hw. injection Hw as <-.
    right. split; [done|]. right.
    destruct (21 <? Web.player_value page) eqn:E1;
      [apply Z.ltb_lt in E1|apply Z.ltb_ge in E1]; decide_eq.
    { right. do 2 (split; [done|]). by left. }
    destruct (21 <? Web.dealer_value page) eqn:E2;
      [apply Z.ltb_lt in E2|apply Z.ltb_ge in E2]; decide_eq.
    { left. do 3 (split; [done|]). by left. }
    destruct (Web.dealer_value page <? Web.player_value page) eqn:E3;
      [apply Z.ltb_lt in E3|apply Z.ltb_ge in E3]; decide_eq.
    { left. do 3 (split; [done|]). by right. }
    right. do 2 (split; [done|]). by right.
Qed.

Lemma page_shows_session_witness :
  ∃ t', Web.cards (Web.game stand_request playing_session).1 = Some t' ∧
        Web.state (Web.game stand_request playing_session).1 =
          Some (Web.page_state
                  (Web.mkPage "10♠ 7♠" 17 "6♠ 9♠ K♠" 25 "done" "You win!")) ∧
        shows (Web.mkPage "10♠ 7♠" 17 "6♠ 9♠ K♠" 25 "done" "You win!") t' ∧
        verdict (Web.mkPage "10♠ 7♠" 17 "6♠ 9♠ K♠" 25 "done" "You win!").
Proof.
  apply (page_shows_session stand_request playing_session
           (Web.game stand_request playing_session).1
           (Web.mkPage "10♠ 7♠" 17 "6♠ 9♠ K♠" 25 "done" "You win!")).
  vm_compute. reflexivity.
Defined.

Lemma render_playing_same msg t1 t2 :
  Web.player t1 = Web.player t2 → head (Web.dealer t1) = head (Web.dealer t2) →
  Web.render "playing" msg t1 = Web.render "playing" msg t2.
Proof.
  unfold Web.render. intros -> Hd. decide_eq.
  by destruct (Web.dealer t1) as [|c1 r1], (Web.dealer t2) as [|c2 r2];
    simplify_eq/=.
Qed.

(** X10. During the player's turn the page does not depend on the dealer's
    hole card nor on the deck below the card drawn.  From two sessions in
    the same state with the same player's hand and the same first card of
    the dealer, and with the same card on top of the deck when the request
    is a Hit, whatever else the dealer holds and the deck has below, a
    request answered with a page of state 'playing' from the one is answered
    with the very same page from the other; and when the decks have the same
    [k] cards below the one drawn, the sessions left agree in the same way
    on these.  (The session itself holds the hole card: this is about the
    page.) *)
Theorem playing_page_ignores_unseen_cards k req st t1 t2 s1' page :
  same_view (cards_drawn req + k) t1 t2 →
  Web.game req (Web.mkSession (Some t1) st) = (s1', Ok page) →
  Web.page_state page = "playing" →
  ∃ t1' t2',
    s1' = Web.mkSession (Some t1') (Some "playing") ∧
    Web.game req (Web.mkSession (Some t2) st) =
      (Web.mkSession (Some t2') (Some "playing"), Ok page) ∧
    same_view k t1' t2'.
Proof.
  intros (Hplayer & Hhead & Htop) Hgame Hplaying.
  pose proof Hgame as
    (s1 & st1 & msg1 & s2 & st2 & msg2 & t & Hp & Hd & -> & Ht & Hr)%game_inv.
  apply render_inv in Hr as Hst. destruct Hst as (Hst & _).
  rewrite Hplaying in Hst. subst st2.
  apply dealer_step_inv in Hd as [(_ & -> & Hst1 & ->)|(_ & ? & _)]; [|done].
  subst st1. simpl in Hp.
  apply player_step_inv in Hp
    as [(-> & Hdef & -> & Hreq)|
        [(_ & _ & _ & _ & ? & _)|
         (Hm & Hdef & Ha & t0 & c & deck' & v & Ht0 & Hdeck0 & -> & Hv & Hcase)]];
    [|done|].
  - simpl in Ht. injection Ht as <-.
    assert (Hidle : ¬ (Web.method req = "POST" ∧
                       (Web.action req = Some "hit" ∨ Web.action req = Some "stand")))
      by (intros [Hm Ha]; apply Hreq; auto).
    exists t1, t2. split; [done|]. split.
    + rewrite (game_idle req (Web.mkSession (Some t2) st) t2 Hidle eq_refl
                 (eq_sym Hdef)).
      by rewrite <- (render_playing_same "" t1 t2 Hplayer Hhead), Hr.
    + split; [done|]. split; [done|].
      unfold cards_drawn in Htop. destruct (Web.action req) as [a|].
      * destruct (decide (Web.method req = "POST" ∧ Some a = Some "hit"))
          as [[Hm Ha]|Hn]; [exfalso; apply Hidle; auto|].
        by rewrite bool_decide_eq_false_2 in Htop by done.
      * by rewrite bool_decide_eq_false_2 in Htop by (by intros [_ ?]).
  - simpl in Ht0. injection Ht0 as <-. simpl in Ht. injection Ht as <-.
    destruct Hcase as [(_ & ? & _)|(Hle & _ & ->)]; [done|].
    unfold cards_drawn in Htop. rewrite bool_decide_eq_true_2 in Htop by done.
    rewrite Hdeck0, reverse_app in Htop. simpl in Htop.
    destruct (Web.deck t2) as [|c2 deck2 _] eqn:Hdeck2 using rev_ind; [done|].
    rewrite reverse_app in Htop. simpl in Htop. injection Htop as <- Htop.
    exists (Web.mkTable deck' (Web.player t1 ++ [c]) (Web.dealer t1)),
           (Web.mkTable deck2 (Web.player t2 ++ [c]) (Web.dealer t2)).
    split; [done|]. split; [|unfold same_view; simpl; by rewrite Hplayer].
    rewrite Hplayer in Hv.
    rewrite (game_hit req (Web.mkSession (Some t2) st) t2 c deck2 v Hm Ha eq_refl
               Hdef Hdeck2 Hv).
    assert ((21 <? v) = false) as -> by by apply Z.ltb_ge.
    rewrite <- Hr. f_equal. symmetry. apply render_playing_same; simpl; congruence.
Qed.

Lemma playing_page_ignores_unseen_cards_witness :
  Web.dealer (dealt_table other_rng) ≠ Web.dealer (dealt_table exchanged_rng) ∧
  ∃ t1' t2',
    (Web.game hit_request
       (Web.mkSession (Some (dealt_table other_rng)) (Some "playing"))).1 =
      Web.mkSession (Some t1') (Some "playing") ∧
    Web.game hit_request
      (Web.mkSession (Some (dealt_table exchanged_rng)) (Some "playing")) =
      (Web.mkSession (Some t2') (Some "playing"),
       Ok (Web.mkPage "4♠ 7♠ 3♥" 14 "10♠ [hidden]" 10 "playing" "")) ∧
    same_view 1 t1' t2'.
Proof.
  split; [by vm_compute|].
  apply (playing_page_ignores_unseen_cards 1 hit_request (Some "playing")
           (dealt_table other_rng)).
  - vm_compute. done.
  - vm_compute. reflexivity.
  - reflexivity.
Defined.

(** ** The value of a hand after a hit *)

Lemma tally_app hand1 hand2 v a :
  tally (hand1 ++ hand2) v a =
  match tally hand1 v a with
  | Ok (v', a') => tally hand2 v' a'
  | Err e => Err e
  end.
Proof.
  revert v a. induction hand1 as [|[rank suit] hand1 IH]; intros v a; simpl; [done|].
  destruct (card_value rank) as [x|e]; simpl; [apply IH|done].
Qed.

(** An Ace goes into the sum as 11, any other card of the deck as 2 to 10. *)
Lemma card_value_ace rank :
  rank ∈ RANKS →
  ∃ x, card_value rank = Ok x ∧
       if bool_decide (rank = "A") then x = 11 else 2 <= x <= 10.
Proof.
  unfold RANKS. rewrite !elem_of_cons, elem_of_nil.
  intros H. repeat destruct H as [-> | H]; try done;
    eexists; (split; [vm_compute; reflexivity|]); decide_eq; lia.
Qed.

(** X11. The value of a hand of cards of the deck after one more card: from
    11 or less it goes up and stays at 21 or less, so a hit at 11 or less
    never busts; from above 21 it goes up, so a hand above 21 stays above 21;
    and it never goes up by more than 11 or down by more than 9. *)
Theorem hand_value_after_hit hand c v :
  known_ranks hand → c.1 ∈ RANKS → hand_value hand = Ok v →
  ∃ v', hand_value (hand ++ [c]) = Ok v' ∧
        (v <= 11 → v < v' <= 21) ∧
        (21 < v → v < v') ∧
        v - 9 <= v' <= v + 11.
Proof.
  intros (b & k & Ht & _)%tally_known Hc. destruct c as [rank suit]. simpl in Hc.
  destruct (card_value_ace rank Hc) as (x & Hx & Hace).
  unfold hand_value. rewrite tally_app, Ht. simpl. rewrite Hx. simpl.
  intros [= <-].
  destruct (soften_spec k (0 + b)) as (j & Hj & -> & Hlt & Hstop).
  eexists. split; [reflexivity|].
  match goal with
  | |- context [soften ?k' ?b'] =>
      destruct (soften_spec k' b') as (j' & Hj' & -> & Hlt' & Hstop');
      revert Hj' Hlt' Hstop'
  end.
  assert (Hprev : j = O ∨ 21 < 0 + b - 10 * Z.of_nat (j - 1)).
  { destruct j as [|j]; [by left|right]. apply Hlt. lia. }
  case_bool_decide as HA; intros Hj' Hlt' Hstop'.
  - assert (Hprev' : j' = O ∨ 21 < 0 + b + x - 10 * Z.of_nat (j' - 1)).
    { destruct j' as [|j']; [by left|right]. apply Hlt'. lia. }
    assert (Hmono : (j <= j')%nat).
    { destruct (decide (j <= j')%nat) as [?|Hn]; [done|].
      specialize (Hlt j'). lia. }
    lia.
  - assert (Hprev' : j' = O ∨ 21 < 0 + b + x - 10 * Z.of_nat (j' - 1)).
    { destruct j' as [|j']; [by left|right]. apply Hlt'. lia. }
    assert (Hmono : (j <= j')%nat).
    { destruct (decide (j <= j')%nat) as [?|Hn]; [done|].
      specialize (Hlt j'). lia. }
    lia.
Qed.

Lemma hand_value_after_hit_witness :
  ∃ v', hand_value ([spade "A"; spade "K"] ++ [spade "A"]) = Ok v' ∧
        (21 <= 11 → 21 < v' <= 21) ∧ (21 < 21 → 21 < v') ∧
        21 - 9 <= v' <= 21 + 11.
Proof.
  apply (hand_value_after_hit [spade "A"; spade "K"] (spade "A") 21).
  - apply (bool_decide_unpack _). by vm_compute.
  - apply (bool_decide_unpack _). by vm_compute.
  - reflexivity.
Defined.

(** ** The console's round played over the web *)

Lemma requests_cons req reqs s s1 page :
  Web.game req s = (s1, Ok page) →
  requests (req :: reqs) s =
  ((requests reqs s1).1,
   match (requests reqs s1).2 with
   | Ok pages => Ok (page :: pages)
   | Err e => Err e
   end).
Proof.
  intros Hg. simpl. unfold mbind, M_bind, mret, M_ret. rewrite Hg.
  by destruct (requests reqs s1) as [s2 [pages|e]].
Qed.

(** A player's turn at the console that returns, played over the web with
    the same answers: the session ends in the same deck and hand; after a
    bust the round is finished with the dealer's two cards, after a Stand the
    request has run the dealer's turn. *)
Lemma player_loop_on_web inp out deck hand d1 d2 rest out' deck' hand' :
  known_ranks deck → known_ranks hand → known_ranks [d1; d2] →
  (∃ v, hand_value hand = Ok v ∧ v <= 21) →
  (36 <= length deck + length hand)%nat →
  Console.player_loop inp out deck hand = (Console.mkWorld rest out', Ok (deck', hand')) →
  ∃ used pv, inp = used ++ rest ∧ hand_value hand' = Ok pv ∧
    ((21 < pv ∧ ∃ dv pages,
        hand_value [d1; d2] = Ok dv ∧
        requests (request_of <$> used) (round_session deck hand [d1; d2] "playing") =
          (round_session deck' hand' [d1; d2] "done", Ok pages) ∧
        last pages = Some (done_page hand' [d1; d2] pv dv "You busted! Dealer wins.")) ∨
     (pv <= 21 ∧ ∃ deck2 dealer2 dv w pages,
        Web.dealer_turn deck' [d1; d2] = ((deck2, dealer2), Ok tt) ∧
        hand_value dealer2 = Ok dv ∧
        determine_winner hand' dealer2 = Ok w ∧
        requests (request_of <$> used) (round_session deck hand [d1; d2] "playing") =
          (round_session deck2 hand' dealer2 "done", Ok pages) ∧
        last pages = Some (done_page hand' dealer2 pv dv
                             (if bool_decide (w = "player") then "You win!"
                              else "Dealer wins! (Dealer wins ties)")))).
Proof.
  intros Hkd Hkh Hkl. revert out deck hand Hkd Hkh.
  assert (Hup : ∃ uv, hand_value [d1] = Ok uv).
  { apply one_card_value. apply Forall_cons in Hkl as [? _]. known_cards. }
  destruct Hup as (uv & Huv).
  destruct (hand_value_known _ Hkl) as (dv0 & Hdv0 & _).
  induction inp as [|line inp IH]; intros out deck hand Hkd Hkh (v & Hv & Hle) Hcards;
    simpl; rewrite Hv; [done|].
  destruct (hand_value_known _ Hkh) as (v' & Hv' & _ & Hlen).
  rewrite Hv in Hv'. injection Hv' as <-.
  case_bool_decide as Hhit.
  - assert (Hreq : request_of line = hit_request).
    { unfold request_of. by rewrite bool_decide_eq_true_2. }
    destruct deck as [|c deck _] using rev_ind; [done|].
    rewrite pop_snoc.
    apply Forall_app in Hkd as [Hkd Hkc].
    assert (Hkh1 : known_ranks (hand ++ [c])) by (apply Forall_app; done).
    destruct (hand_value_known _ Hkh1) as (v1 & Hv1 & _).
    rewrite Hv1.
    pose proof (game_hit hit_request (round_session (deck ++ [c]) hand [d1; d2] "playing")
                  (Web.mkTable (deck ++ [c]) hand [d1; d2]) c deck v1
                  eq_refl eq_refl eq_refl eq_refl eq_refl Hv1) as Hgame.
    simpl in Hgame.
    destruct (21 <? v1) eqn:E; [apply Z.ltb_lt in E|apply Z.ltb_ge in E].
    + intros [= <- _ <- <-]. exists [line], v1. split; [done|]. split; [done|]. left.
      split; [done|]. exists dv0. eexists. split; [done|].
      erewrite render_done in Hgame by done.
      rewrite fmap_cons, Hreq, (requests_cons _ _ _ _ _ Hgame). simpl. split; done.
    + erewrite render_playing in Hgame by done.
      intros Hrun.
      assert (Hcards1 : (36 <= length deck + length (hand ++ [c]))%nat).
      { rewrite !length_app in *. simpl in *. lia. }
      destruct (IH _ deck (hand ++ [c]) Hkd Hkh1
                  (ex_intro _ v1 (conj Hv1 E)) Hcards1 Hrun)
        as (used & pv & -> & Hpv & Hcase).
      exists (line :: used), pv. split; [done|]. split; [done|].
      rewrite fmap_cons, Hreq, (requests_cons _ _ _ _ _ Hgame).
      unfold round_session in *.
      destruct Hcase as [(Hb & dv & pages & Hdv & Hreqs & Hlast)|
                         (Hnb & deck2 & dealer2 & dv & w & pages & Hturn & Hdv & Hw &
                          Hreqs & Hlast)]; rewrite Hreqs; simpl.
      * left. split; [done|]. exists dv. eexists. split; [done|]. split; [done|].
        destruct pages; [done|]. done.
      * right. split; [done|]. exists deck2, dealer2, dv, w. eexists.
        do 3 (split; [done|]). split; [done|]. destruct pages; [done|]. done.
  - case_bool_decide as Hstand.
    + assert (Hreq : request_of line = stand_request).
      { unfold request_of.
        by rewrite bool_decide_eq_false_2, bool_decide_eq_true_2. }
      intros [= <- _ <- <-]. exists [line], v. split; [done|]. split; [done|]. right.
      split; [done|].
      destruct (dealer_turn_stands deck [d1; d2] Hkd Hkl)
        as (deck2 & dealer2 & dv & Hturn & _ & _ & Hdv & _); [simpl; lia|].
      pose proof (determine_winner_values _ _ _ _ Hv Hdv) as Hw.
      exists deck2, dealer2, dv. eexists. eexists.
      split; [done|]. split; [done|]. split; [exact Hw|].
      pose proof (game_stand stand_request (round_session deck hand [d1; d2] "playing")
                    (Web.mkTable deck hand [d1; d2]) deck2 dealer2 _ v dv
                    eq_refl eq_refl eq_refl eq_refl Hturn Hw Hv Hdv) as Hgame.
      simpl in Hgame.
      rewrite fmap_cons, Hreq, (requests_cons _ _ _ _ _ Hgame). simpl. split; done.
    + assert (Hreq : request_of line = Web.mkRequest "GET" None).
      { unfold request_of. by rewrite !bool_decide_eq_false_2. }
      intros Hrun.
      destruct (IH _ deck hand Hkd Hkh (ex_intro _ v (conj Hv Hle)) Hcards Hrun)
        as (used & pv & -> & Hpv & Hcase).
      pose proof (game_idle (Web.mkRequest "GET" None)
                    (round_session deck hand [d1; d2] "playing")
                    (Web.mkTable deck hand [d1; d2])) as Hgame.
      erewrite render_playing in Hgame by done.
      specialize (Hgame ltac:(by intros [? _]) eq_refl eq_refl).
      exists (line :: used), pv. split; [done|]. split; [done|].
      rewrite fmap_cons, Hreq, (requests_cons _ _ _ _ _ Hgame).
      unfold round_session in *.
      destruct Hcase as [(Hb & dv & pages & Hdv & Hreqs & Hlast)|
                         (Hnb & deck2 & dealer2 & dv & w & pages & Hturn & Hdv & Hw &
                          Hreqs & Hlast)]; rewrite Hreqs; simpl.
      * left. split; [done|]. exists dv. eexists. split; [done|]. split; [done|].
        destruct pages; [done|]. done.
      * right. split; [done|]. exists deck2, dealer2, dv, w. eexists.
        do 3 (split; [done|]). split; [done|]. destruct pages; [done|]. done.
Qed.

(** A round at the console that returns, played over the web from the same
    deal with the same answers: the session ends with the same deck and
    hands, and the last page shows them, with the bust message or the
    console's verdict. *)
Lemma play_round_on_web deck w w' deck' player' dealer' :
  known_ranks deck → (38 <= length deck)%nat →
  Console.play_round_on deck w = (w', Ok (deck', player', dealer')) →
  ∃ used rest p d pv dv pages msg,
    Console.stdin w = used ++ Console.stdin w' ∧
    deal_initial_hands deck = (rest, Ok (p, d)) ∧
    requests (request_of <$> used) (round_session rest p d "playing") =
      (round_session deck' player' dealer' "done", Ok pages) ∧
    hand_value player' = Ok pv ∧ hand_value dealer' = Ok dv ∧
    last pages = Some (done_page player' dealer' pv dv msg) ∧
    ((21 < pv ∧ msg = "You busted! Dealer wins.") ∨
     (pv <= 21 ∧ last (Console.stdout w') = Some msg)).
Proof.
  intros Hk Hlen.
  destruct (last_four deck) as (rest & d2 & d1 & p2 & p1 & ->); [lia|].
  apply Forall_app in Hk as [Hkr Hk4].
  assert (Hkp : known_ranks [p1; p2]).
  { apply Forall_cons in Hk4 as [? Hk4]. apply Forall_cons in Hk4 as [? Hk4].
    apply Forall_cons in Hk4 as [? Hk4]. apply Forall_cons in Hk4 as [? _].
    by known_cards. }
  assert (Hkd : known_ranks [d1; d2]).
  { apply Forall_cons in Hk4 as [? Hk4]. apply Forall_cons in Hk4 as [? Hk4].
    by known_cards. }
  rewrite length_app in Hlen. simpl in Hlen.
  destruct (two_cards_at_most_21 p1 p2 Hkp) as (v0 & Hv0 & Hle0).
  destruct (two_cards_at_most_21 d1 d2 Hkd) as (dv0 & Hdv0 & _).
  unfold Console.play_round_on, Console.print. unfold_M.
  rewrite deal_initial_hands_snoc, Hv0. rewrite <- !app_assoc. simpl.
  unfold Console.player_turn. simpl.
  match goal with
  | |- context [Console.player_loop ?i ?o ?d ?h] =>
      destruct (player_loop_run i o d h)
        as (used0 & inp' & drawn & deck1 & player1 & out1 & r & Hloop & _ & Hdeck &
            Hhand & _ & _ & Hend);
      rewrite Hloop
  end.
  destruct r as [[deck1' player1']|e]; [|done].
  assert (deck1' = deck1 ∧ player1' = player1) as [-> ->].
  { destruct Hend as [(Heq & _)|[(? & _)|[(? & _)|(? & _)]]]; try done.
    by injection Heq as -> ->. }
  assert (Hcards : (36 <= length rest + length [p1; p2])%nat) by (simpl; lia).
  destruct (player_loop_on_web _ _ _ _ d1 d2 _ _ _ _ Hkr Hkp Hkd
              (ex_intro _ v0 (conj Hv0 Hle0)) Hcards Hloop)
    as (used & pv & Hin & Hpv & Hcase).
  destruct (dealer_turn_hand_known _ _ _ _ _ Hkr Hkp Hdeck Hhand)
    as (Hkd1 & Hkp1 & pv' & Hpv' & Hpl).
  rewrite Hpv in Hpv'. injection Hpv' as <-.
  simpl. rewrite Hpv. simpl.
  destruct (21 <? pv) eqn:E; [apply Z.ltb_lt in E|apply Z.ltb_ge in E]; simpl.
  - rewrite Hdv0. simpl. intros [= <- <- <- <-].
    destruct Hcase as [(_ & dv & pages & Hdv & Hreqs & Hlast)|(? & _)]; [|lia].
    rewrite Hdv0 in Hdv. injection Hdv as <-.
    exists used, rest, [p1; p2], [d1; d2], pv, dv0, pages. eexists.
    do 6 (split; [done|]). by left.
  - destruct Hcase as [(? & _)|(_ & deck2 & dealer2 & dv & w0 & pages & Hturn & Hdv &
                                Hw & Hreqs & Hlast)]; [lia|].
    match goal with
    | |- context [Console.dealer_turn ?d ?h ?w0] =>
        destruct (console_dealer_turn_stands d h w0)
          as (ddrawn & deck2' & dealer2' & dv' & out2 & -> & Hturn' & _)
    end; [simpl; lia|done|done| |].
    { assert (Z.of_nat (length player1) <= 21) by lia.
      rewrite Hdeck, Hhand, !length_app, length_reverse in *. simpl in *. lia. }
    rewrite Hturn in Hturn'. injection Hturn' as <- <-.
    simpl. rewrite Hw. simpl. rewrite Hdv. simpl.
    intros [= <- <- <- <-].
    exists used, rest, [p1; p2], [d1; d2], pv, dv, pages. eexists.
    do 6 (split; [done|]). right. split; [done|]. simpl. rewrite last_snoc.
    f_equal.
    rewrite (determine_winner_values _ _ _ _ Hpv Hdv) in Hw. injection Hw as <-.
    by repeat case_match.
Qed.

(** X12. The two programs play the same game.  A round at the console that
    returns, played over the web from the same random source with the
    player's answers sent as requests ([/start], then for every line read a
    Hit, a Stand or a plain request for the page), is answered at every
    request and ends with the same deck and the same hands in a finished
    round; the last page shows these hands and their values, with the
    message of the bust when the player is above 21 and otherwise the very
    line that the console printed as its verdict. *)
Theorem console_round_on_web g w :
  ∃ w' r, Console.play_round g w = (w', r) ∧
    (r = Err EOFError ∨
     ∃ g' deck' player' dealer' used pages pv dv msg,
       r = Ok (g', (deck', player', dealer')) ∧
       Console.stdin w = used ++ Console.stdin w' ∧
       (∀ s0, (Web.start g ≫= λ _, requests (request_of <$> used)) s0 =
              (round_session deck' player' dealer' "done", Ok pages)) ∧
       hand_value player' = Ok pv ∧ hand_value dealer' = Ok dv ∧
       last pages = Some (done_page player' dealer' pv dv msg) ∧
       ((21 < pv ∧ msg = "You busted! Dealer wins.") ∨
        (pv <= 21 ∧ last (Console.stdout w') = Some msg))).
Proof.
  destruct (play_round_run g w) as (w' & r & Hrun & Hend).
  exists w', r. split; [done|].
  destruct Hend as [(-> & _)|(deck' & player' & dealer' & -> & _)]; [by left|right].
  pose proof (play_round_inv _ _ _ _ _ Hrun) as Hon.
  destruct (play_round_on_web _ _ _ _ _ _ (shuffled_deck_known g)
              ltac:(rewrite shuffled_deck_length; lia) Hon)
    as (used & rest & p & d & pv & dv & pages & msg & Hin & Hdeal & Hreqs & Hpv & Hdv &
        Hlast & Hmsg).
  exists (build_deck true g).2, deck', player', dealer', used, pages, pv, dv, msg.
  do 2 (split; [done|]). split; [|done].
  intros s0. destruct (start_in_round g s0) as (g' & [rest' p' d'] & Hstart & Hdeal' & _).
  rewrite Hdeal in Hdeal'. simpl in Hdeal'. injection Hdeal' as <- <- <-.
  unfold mbind, M_bind. rewrite Hstart. exact Hreqs.
Qed.

(** ** A round over the web, request after request *)

(** [/start] deals from a deck that holds the cards of the unshuffled one. *)
Lemma start_deals_deck g s0 :
  ∃ g' t, Web.start g s0 = (Web.mkSession (Some t) (Some "playing"), Ok g') ∧
          in_round (Web.dealer t) (Web.mkSession (Some t) (Some "playing")) ∧
          Web.deck t ++ Web.player t ++ Web.dealer t ≡ₚ (build_deck false g).1.
Proof.
  destruct (start_in_round g s0) as (g' & t & Hstart & Hdeal & Hin).
  exists g', t. split; [done|]. split; [done|].
  assert (Hperm : (build_deck true g).1 ≡ₚ (build_deck false g).1).
  { unfold build_deck, random_shuffle. apply shuffle_from_Permutation. }
  rewrite <- Hperm.
  destruct (last_four (build_deck true g).1) as (rest & d2 & d1 & p2 & p1 & Heq);
    [rewrite shuffled_deck_length; lia|].
  rewrite Heq in Hdeal |- *. rewrite deal_initial_hands_snoc in Hdeal.
  injection Hdeal as <- <- <-. apply Permutation_app_head. simpl.
  change [d2; d1; p2; p1] with (reverse [p1; p2; d1; d2]).
  by rewrite reverse_Permutation.
Qed.

(** A finished round stays as it is. *)
Lemma game_done_in_round dealt req s :
  in_round dealt s → Web.state s = Some "done" →
  ∃ page, Web.game req s = (s, Ok page).
Proof.
  intros (t & Ht & _ & Hkp & Hkl & _) Hst.
  destruct (hand_value_known _ Hkp) as (pv & Hpv & _).
  destruct (hand_value_known _ Hkl) as (dv & Hdv & _).
  rewrite (game_done req s t pv dv Ht Hst Hpv Hdv). eauto.
Qed.

Lemma requests_in_round dealt reqs s :
  in_round dealt s →
  ∃ s' pages n,
    requests reqs s = (s', Ok pages) ∧ in_round dealt s' ∧ conserved s s' ∧
    (n <= length reqs)%nat ∧
    Web.page_state <$> pages =
      replicate n "playing" ++ replicate (length reqs - n) "done" ∧
    (Web.state s = Some "done" → n = O).
Proof.
  revert s. induction reqs as [|req reqs IH]; intros s Hin.
  { exists s, [], O. simpl. split; [done|]. split; [done|]. split; [reflexivity|].
    done. }
  destruct (game_in_round dealt req s Hin) as (s1 & page & Hgame & Hin1 & Hst1).
  destruct (IH s1 Hin1) as (s' & pages & n & Hreqs & Hin' & Hcons & Hn & Hstates & Hdone).
  rewrite (requests_cons _ _ _ _ _ Hgame), Hreqs. simpl.
  assert (Hcons1 : conserved s s1).
  { pose proof (game_conserved req s) as Hc. by rewrite Hgame in Hc. }
  assert (Hplay : Web.state s1 = Some "playing" ∨ Web.state s1 = Some "done").
  { destruct Hin1 as (t & _ & _ & _ & _ & _ & [(-> & _)|(-> & _)]); auto. }
  destruct Hplay as [Hp | Hd].
  - exists s', (page :: pages), (S n). split; [done|]. split; [done|].
    split; [by etrans|]. split; [lia|]. split.
    + rewrite fmap_cons, Hstates. simpl. f_equal. congruence.
    + intros Hst. destruct (game_done_in_round dealt req s Hin Hst) as (page' & Hg').
      rewrite Hgame in Hg'. injection Hg' as -> _. congruence.
  - exists s', (page :: pages), O. split; [done|]. split; [done|].
    split; [by etrans|]. split; [lia|]. split; [|done].
    rewrite fmap_cons, Hstates, (Hdone Hd). simpl. f_equal; [congruence|].
    by rewrite Nat.sub_0_r.
Qed.

(** X13. A round over the web never fails, whatever is sent: after [/start]
    every request of any sequence of requests to [/game] is answered; the
    pages are pages of the player's turn up to some request and pages of the
    finished round from then on, so a finished round is never reopened; and
    the session ends with the 52 cards of the deck split between the deck and
    the two hands. *)
Theorem web_round_never_fails g s0 reqs :
  ∃ s' t pages n,
    (Web.start g ≫= λ _, requests reqs) s0 = (s', Ok pages) ∧
    (n <= length reqs)%nat ∧
    Web.page_state <$> pages =
      replicate n "playing" ++ replicate (length reqs - n) "done" ∧
    Web.cards s' = Some t ∧
    Web.deck t ++ Web.player t ++ Web.dealer t ≡ₚ (build_deck false g).1.
Proof.
  destruct (start_deals_deck g s0) as (g' & t0 & Hstart & Hin & Hperm).
  destruct (requests_in_round _ reqs _ Hin)
    as (s' & pages & n & Hreqs & Hin' & Hcons & Hn & Hstates & _).
  destruct Hin' as (t & Ht & _).
  exists s', t, pages, n.
  split; [unfold mbind, M_bind; rewrite Hstart; exact Hreqs|].
  do 3 (split; [done|]).
  unfold conserved in Hcons. rewrite Ht in Hcons. simpl in Hcons. by rewrite Hcons.
Qed.
